(** * sd-lora-trainer: the training loop, its optimizers, its loss and its
    configuration, embedded in Rocq.

    Sources embedded here:
    - [trainer/utils/utils.py], [get_avg_lr]           -> [Module Utils]
    - [trainer/optimizer.py], optimizer construction   -> [Module Optim]
    - [trainer/config.py], [TrainingConfig.__init__]   -> [Module Config]
    - [trainer/trainer.py], the loss (lines 376-416)   -> [Module Loss]
    - [trainer/trainer.py], set-up, loop, final save   -> [Module Trainer]

    Conventions.  Python integers are [Z].  Python and torch floating point
    numbers are idealised as exact rationals [Q]; equalities between computed
    reals are stated with [==] ([Qeq]).  Code that can raise returns a
    [result]; a bare [except:] is a [match] that catches every [Raise]. *)

From Stdlib Require Import ZArith QArith Qabs Qminmax Qround Qpower.
From Stdlib Require Import List Sorted String Ascii Bool.
From Stdlib Require Import DecimalString DecimalPos DecimalZ Lia Lqa Qfield.
Import ListNotations.

Open Scope Z_scope.

(** ** Exceptions and the error monad *)

Inductive exn : Type :=
| AttributeError
| TypeError
| KeyError
| IndexError
| ZeroDivisionError
| UnboundLocalError
| NotImplementedError (msg : string).

Inductive result (A : Type) : Type :=
| Ok (a : A)
| Raise (e : exn).

Arguments Ok {A} a.
Arguments Raise {A} e.

Definition bind {A B : Type} (m : result A) (f : A -> result B) : result B :=
  match m with
  | Ok a => f a
  | Raise e => Raise e
  end.

Notation "x <- m ;; k" := (bind m (fun x => k))
  (at level 61, m at next level, right associativity).
Notation "' pat <- m ;; k" := (bind m (fun x => match x with pat => k end))
  (at level 61, pat pattern, m at next level, right associativity).

Definition is_ok {A : Type} (m : result A) : bool :=
  match m with
  | Ok _ => true
  | Raise _ => false
  end.

(** [d[key]] on a Python dict whose key may be absent. *)
Definition key {A : Type} (o : option A) : result A :=
  match o with
  | Some a => Ok a
  | None => Raise KeyError
  end.

(** ** Optimizer objects

    A torch optimizer is seen through its [param_groups]: a list of dicts.
    Every group has ['params'] and ['lr']; the keys ['d'], ['k'],
    ['use_bias_correction'] and ['d_coef'] exist on Prodigy groups only,
    hence the options (['betas'] is on both).  Keys that nothing below reads
    (['eps'], ['growth_rate'], ['decouple'], ...) are left out.
    [param_groups = None] is what the pivot of the training loop leaves
    behind ([optimizer.param_groups = None]). *)

Record Param : Type := mkParam {
  numel : Z;
  requires_grad : bool
}.

Record Group : Type := mkGroup {
  params : list Param;
  lr : Q;
  weight_decay : Q;
  betas : option (Q * Q);
  d : option Q;
  k : option Z;
  use_bias_correction : option bool;
  d_coef : option Q
}.

Inductive Algo : Type := AdamW | Prodigy.

Record Optimizer : Type := mkOptimizer {
  algo : Algo;
  param_groups : option (list Group)
}.

Definition set_lr (g : Group) (v : Q) : Group :=
  mkGroup (params g) v (weight_decay g) (betas g) (d g) (k g)
          (use_bias_correction g) (d_coef g).

(** [optimizer.param_groups[0]['lr']] on a handle that may be [None]. *)
Definition first_group_lr (optimizer : option Optimizer) : result Q :=
  match optimizer with
  | None => Raise AttributeError
  | Some o =>
      match param_groups o with
      | None => Raise TypeError
      | Some [] => Raise IndexError
      | Some (g :: _) => Ok (lr g)
      end
  end.

(** ** src/trainer/utils/utils.py *)

Module Utils.

Section GetAvgLr.

(** [x ** 0.5] on floats; the square root is not rational, so it is a
    parameter of the model. *)
Variable fsqrt : Q -> Q.

(** [sum(p.numel() for p in group['params'] if p.requires_grad)] *)
Definition num_params (ps : list Param) : Z :=
  fold_right (fun p acc => if requires_grad p then numel p + acc else acc) 0 ps.

(** One iteration of the [for group in optimizer.param_groups] loop:
    returns the updated [(total_lr, total_params)]. *)
Definition group_step (group : Group) (total_lr : Q) (total_params : Z)
  : result (Q * Z) :=
  d_ <- key (d group) ;;
  let lr_ := lr group in
  ubc <- key (use_bias_correction group) ;;
  bias_correction <-
    (if ubc : bool then
       ' (beta1, beta2) <- key (betas group) ;;
       k_ <- key (k group) ;;
       let den := (1 - beta1 ^ (k_ + 1))%Q in
       if Qeq_bool den 0 then Raise ZeroDivisionError
       else Ok (fsqrt (1 - beta2 ^ (k_ + 1)) / den)%Q
     else Ok 1%Q) ;;
  let effective_lr := (d_ * lr_ * bias_correction)%Q in
  let n := num_params (params group) in
  Ok ((total_lr + effective_lr * inject_Z n)%Q, total_params + n).

Fixpoint group_loop (groups : list Group) (total_lr : Q) (total_params : Z)
  : result (Q * Z) :=
  match groups with
  | [] => Ok (total_lr, total_params)
  | group :: rest =>
      ' (tl, tp) <- group_step group total_lr total_params ;;
      group_loop rest tl tp
  end.

(** The body of the [try:] block. *)
Definition get_avg_lr_try (optimizer : option Optimizer) : result Q :=
  match optimizer with
  | None => Raise AttributeError
  | Some o =>
      match param_groups o with
      | None => Raise TypeError
      | Some groups =>
          ' (total_lr, total_params) <- group_loop groups 0%Q 0 ;;
          if total_params =? 0 then Ok 0%Q
          else Ok (total_lr / inject_Z total_params)%Q
      end
  end.

(** [get_avg_lr]: the [try] body, and on any exception the handler
    [return optimizer.param_groups[0]['lr']], which can raise itself. *)
Definition get_avg_lr (optimizer : option Optimizer) : result Q :=
  match get_avg_lr_try optimizer with
  | Ok v => Ok v
  | Raise _ => first_group_lr optimizer
  end.

End GetAvgLr.

End Utils.

(** ** src/trainer/optimizer.py *)

Module Optim.

(** A parameter group as the caller writes it: a dict with ['params'] and
    possibly ['lr'] and ['weight_decay']; the optimizer's constructor fills
    the missing keys from its defaults. *)
Record GroupSpec : Type := mkSpec {
  spec_params : list Param;
  spec_lr : option Q;
  spec_weight_decay : option Q
}.

Definition from_option {A : Type} (o : option A) (dflt : A) : A :=
  match o with
  | Some a => a
  | None => dflt
  end.

(** [torch.optim.AdamW(specs, lr=lr_, weight_decay=wd)]; betas are torch's
    defaults. *)
Definition new_adamw (specs : list GroupSpec) (lr_ wd : Q) : Optimizer :=
  mkOptimizer AdamW
    (Some (map (fun s =>
                  mkGroup (spec_params s)
                          (from_option (spec_lr s) lr_)
                          (from_option (spec_weight_decay s) wd)
                          (Some (9 # 10, 999 # 1000)%Q) None None None None)
               specs)).

(** [prodigyopt.Prodigy(specs, d_coef=, lr=, use_bias_correction=,
    weight_decay=, betas=)]; a fresh Prodigy group has [d = d0 = 1e-6] and
    step counter [k = 0]. *)
Definition prodigy_d0 : Q := 1 # 1000000.

Definition new_prodigy (specs : list GroupSpec) (d_coef_ lr_ wd : Q)
  (betas_ : Q * Q) (ubc : bool) : Optimizer :=
  mkOptimizer Prodigy
    (Some (map (fun s =>
                  mkGroup (spec_params s)
                          (from_option (spec_lr s) lr_)
                          (from_option (spec_weight_decay s) wd)
                          (Some betas_) (Some prodigy_d0) (Some 0)
                          (Some ubc) (Some d_coef_))
               specs)).

Definition get_unet_optimizer (prodigy_d_coef lora_weight_decay : Q)
  (use_dora : bool) (unet_trainable_params : list GroupSpec)
  (optimizer_name : string) : result Optimizer :=
  if String.eqb optimizer_name "adamw" then
    Ok (new_adamw unet_trainable_params (1 # 10000) (1 # 100))
  else if String.eqb optimizer_name "prodigy" then
    Ok (new_prodigy unet_trainable_params prodigy_d_coef 1
          (if negb use_dora then lora_weight_decay else 0)
          (9 # 10, 99 # 100)%Q true)
  else
    Raise (NotImplementedError
             ("Invalid optimizer_name for unet: " ++ optimizer_name)).

(** [pat in s] on Python strings. *)
Fixpoint contains (pat s : string) : bool :=
  if String.prefix pat s then true
  else match s with
       | EmptyString => false
       | String _ s' => contains pat s'
       end.

(** A text encoder is seen through [named_parameters()]. *)
Definition TextEncoder : Type := list (string * Param).

(** The loop over [text_encoders]: the token-embedding parameters, each with
    [requires_grad] set. *)
Definition token_embedding_params (text_encoders : list (option TextEncoder))
  : list Param :=
  flat_map
    (fun te =>
       match te with
       | None => []
       | Some named =>
           flat_map
             (fun np => if contains "token_embedding" (fst np)
                        then [mkParam (numel (snd np)) true]
                        else [])
             named
       end)
    text_encoders.

Definition get_textual_inversion_optimizer
  (text_encoders : list (option TextEncoder))
  (textual_inversion_lr textual_inversion_weight_decay : Q)
  (optimizer_name : string) : result (Optimizer * list Param) :=
  let text_encoder_parameters := token_embedding_params text_encoders in
  let params_to_optimize_ti :=
    [ mkSpec text_encoder_parameters
             (Some (if negb (String.eqb optimizer_name "prodigy")
                    then textual_inversion_lr else 1%Q))
             (Some textual_inversion_weight_decay) ] in
  optimizer_ti <-
    (if String.eqb optimizer_name "prodigy" then
       Ok (new_prodigy params_to_optimize_ti 1 1 textual_inversion_weight_decay
             (9 # 10, 99 # 100)%Q true)
     else if String.eqb optimizer_name "adamw" then
       Ok (new_adamw params_to_optimize_ti (1 # 1000)
             textual_inversion_weight_decay)
     else
       Raise (NotImplementedError
                ("Invalid optimizer_name: '" ++ optimizer_name ++ "'"))) ;;
  Ok (optimizer_ti, text_encoder_parameters).

Section TextEncoderLora.

(** [get_text_encoder_lora_parameters]: the trainable parameters of the PEFT
    model that [get_peft_model] (external) wraps around a text encoder. *)
Variable peft_lora_params : TextEncoder -> Z -> Q -> bool -> list Param.

Definition get_optimizer_and_peft_models_text_encoder_lora
  (text_encoders : list (option TextEncoder)) (lora_rank : Z)
  (lora_alpha_multiplier : Q) (use_dora : bool) (optimizer_name : string)
  (lora_lr weight_decay_ : Q) : result Optimizer :=
  let text_encoder_lora_parameters :=
    flat_map
      (fun te =>
         match te with
         | None => []
         | Some enc =>
             peft_lora_params enc lora_rank lora_alpha_multiplier use_dora
         end)
      text_encoders in
  if String.eqb optimizer_name "adamw" then
    Ok (new_adamw [mkSpec text_encoder_lora_parameters None None] lora_lr
          (if negb use_dora then weight_decay_ else 0))
  else
    Raise (NotImplementedError
             ("Text encoder LoRA finetuning is not yet implemented for optimizer: "
              ++ optimizer_name)).

End TextEncoderLora.

End Optim.

(** ** src/trainer/config.py *)

Module Config.

Inductive ConceptMode : Type := face | style | object.
Inductive SdVersion : Type := sdxl | sd15 | sd3.
Inductive CaptionModel : Type := gpt4_v | blip.

Definition concept_str (c : ConceptMode) : string :=
  match c with
  | face => "face"
  | style => "style"
  | object => "object"
  end.

Definition version_str (v : SdVersion) : string :=
  match v with
  | sdxl => "sdxl"
  | sd15 => "sd15"
  | sd3 => "sd3"
  end.

Definition caption_str (c : CaptionModel) : string :=
  match c with
  | gpt4_v => "gpt4-v"
  | blip => "blip"
  end.

(** The fields of [TrainingConfig] that [__init__] reads or writes, as they
    stand after pydantic's base constructor has validated the
    input and filled in the defaults. *)
Record TrainingConfig : Type := mkConfig {
  concept_mode : ConceptMode;
  caption_model : CaptionModel;
  sd_model_version : SdVersion;
  pretrained_model : option (list (string * string));
  seed : option Z;
  resolution : Z;
  max_train_steps : Z;
  unet_lr_warmup_steps : option Z;
  prodigy_d_coef : Q;
  lora_weight_decay : Q;
  l1_penalty : Q;
  use_dora : bool;
  left_right_flip_augmentation : bool;
  mask_target_prompts : option string;
  name : option string;
  output_dir : string;
  n_tokens : Z;
  inserting_list_tokens : list string;
  token_dict : list (string * string);
  device : string;
  start_time : Q;
  text_encoder_lora_weight_decay : Q
}.

(** What [__init__] takes from outside the class: the model table of
    [trainer.models], the clock, the GPU picked by [pick_best_gpu_id] and
    Python's printing of a float. *)
Record InitEnv : Type := mkEnv {
  pretrained_models : SdVersion -> list (string * string);
  timestamp_short : string;
  time_at_seed : Q;
  time_at_start : Q;
  gpu_id : option Z;
  str_float : Q -> string
}.

Definition str_int (z : Z) : string := NilZero.string_of_int (Z.to_int z).

(** [int(x)] on a float: truncation towards zero. *)
Definition int_of_float (x : Q) : Z := Z.quot (Qnum x) (Zpos (Qden x)).

(** [os.path.basename]: what follows the last slash. *)
Fixpoint basename_from (s acc : string) : string :=
  match s with
  | EmptyString => acc
  | String c s' =>
      if Ascii.eqb c "/"%char then basename_from s' EmptyString
      else basename_from s' (acc ++ String c EmptyString)
  end.

Definition basename (s : string) : string := basename_from s EmptyString.

(** [not self.name] *)
Definition falsy (o : option string) : bool :=
  match o with
  | None => true
  | Some s => String.eqb s EmptyString
  end.

(** [[f"<s{i}>" for i in range(n)]] *)
Definition make_tokens (n : Z) : list string :=
  map (fun i => "<s" ++ str_int (Z.of_nat i) ++ ">")%string
      (seq 0 (Z.to_nat n)).

Definition init (env : InitEnv) (data : TrainingConfig) : TrainingConfig :=
  let pretrained_model' :=
    Some (pretrained_models env (sd_model_version data)) in
  let lora_str := (if use_dora data then "dora" else "lora")%string in
  let ts := timestamp_short env in
  let name' :=
    if falsy (name data) then
      Some (basename (output_dir data) ++ "_" ++ concept_str (concept_mode data)
            ++ "_" ++ lora_str ++ "_" ++ version_str (sd_model_version data)
            ++ "_" ++ ts)%string
    else name data in
  let output_dir' :=
    (output_dir data ++ "--" ++ ts ++ "-" ++ version_str (sd_model_version data)
     ++ "_" ++ concept_str (concept_mode data) ++ "_" ++ lora_str
     ++ "_" ++ str_int (resolution data)
     ++ "_" ++ str_float env (prodigy_d_coef data)
     ++ "_" ++ caption_str (caption_model data)
     ++ "_" ++ str_int (max_train_steps data))%string in
  let seed' :=
    match seed data with
    | None => Some (int_of_float (time_at_seed env))
    | Some s => Some s
    end in
  let unet_lr_warmup_steps' :=
    match unet_lr_warmup_steps data with
    | None => Some (max_train_steps data)
    | Some w => Some w
    end in
  let is_face :=
    match concept_mode data with
    | face => true
    | _ => false
    end in
  let left_right_flip_augmentation' :=
    if is_face then false else left_right_flip_augmentation data in
  let mask_target_prompts' :=
    if is_face then Some "face"%string else mask_target_prompts data in
  let l1_penalty' := if use_dora data then 0%Q else l1_penalty data in
  let lora_weight_decay' :=
    if use_dora data then 0%Q else lora_weight_decay data in
  let text_encoder_lora_weight_decay' :=
    if use_dora data then 0%Q else text_encoder_lora_weight_decay data in
  let inserting_list_tokens' := make_tokens (n_tokens data) in
  let token_dict' :=
    [("TOK"%string, String.concat EmptyString inserting_list_tokens')] in
  let device' :=
    ("cuda:" ++ match gpu_id env with
                | None => "None"
                | Some i => str_int i
                end)%string in
  mkConfig (concept_mode data) (caption_model data) (sd_model_version data)
           pretrained_model' seed' (resolution data) (max_train_steps data)
           unet_lr_warmup_steps' (prodigy_d_coef data) lora_weight_decay'
           l1_penalty' (use_dora data) left_right_flip_augmentation'
           mask_target_prompts' name' output_dir' (n_tokens data)
           inserting_list_tokens' token_dict' device' (time_at_start env)
           text_encoder_lora_weight_decay'.

End Config.

(** ** src/trainer/trainer.py, lines 376-416: the loss of one batch

    A tensor of shape (B, ...) is a list of B rows, each row the example's
    entries flattened; [mask] is taken already broadcast to the shape of the
    prediction.  [t.mean(dim=[1, ..., r-1])] is the row-wise mean.  On a
    tensor that is already one-dimensional, [list(range(1, 1))] is empty and
    torch reduces over every dimension for an empty [dim] list. *)

Module Loss.

Local Open Scope Q_scope.

Definition Tensor : Type := list (list Q).

Definition qsum (l : list Q) : Q := fold_right Qplus 0 l.

Definition qmean (l : list Q) : Q :=
  qsum l / inject_Z (Z.of_nat (List.length l)).

Fixpoint map2 {A B C : Type} (f : A -> B -> C) (l1 : list A) (l2 : list B)
  : list C :=
  match l1, l2 with
  | a :: l1', b :: l2' => f a b :: map2 f l1' l2'
  | _, _ => []
  end.

(** [(model_pred - target).pow(2)] *)
Definition sq_err (pred target : Tensor) : Tensor :=
  map2 (map2 (fun p t => (p - t) ^ 2)) pred target.

(** [(model_pred - target).pow(2) * mask] *)
Definition masked_sq_err (pred target mask : Tensor) : Tensor :=
  map2 (map2 Qmult) (sq_err pred target) mask.

(** The branch [snr_gamma is None], lines 377-385.  Division in [Q] is
    total ([x / 0] is 0) where a float division by zero gives [nan] or
    [inf]: the value is that of the code where no divisor is zero, that is
    on masks whose per-example means and whose mean of means are not 0. *)
Definition loss_plain (pred target mask : Tensor) : Q :=
  let loss := masked_sq_err pred target mask in
  let mean_mask_values := map qmean mask in
  let mean_mask_values :=
    map (fun v => v / qmean mean_mask_values) mean_mask_values in
  let loss := map2 Qdiv (map qmean loss) mean_mask_values in
  qmean loss.

(** [snr_gamma] is a float, possibly [float('inf')]. *)
Inductive Gamma : Type :=
| Finite (g : Q)
| Infinite.

(** [torch.stack([snr, snr_gamma * ones], dim=1).min(dim=1)[0]], one entry. *)
Definition clip (g : Gamma) (snr : Q) : Q :=
  match g with
  | Finite q => Qmin snr (q * 1)
  | Infinite => snr
  end.

(** The branch [snr_gamma is not None], lines 391-411; [snr] is what
    [compute_snr(noise_scheduler, timesteps)] returned, one entry per
    example. *)
Definition loss_snr (prediction_type : string) (g : Gamma) (snr : list Q)
  (pred target mask : Tensor) : Q :=
  let base_weight := map (fun s => clip g s / s) snr in
  let mse_loss_weights :=
    if String.eqb prediction_type "v_prediction"
    then map (fun w => w + 1) base_weight
    else base_weight in
  let mse_loss_weights :=
    map (fun w => w / qmean mse_loss_weights) mse_loss_weights in
  let loss := masked_sq_err pred target mask in
  let loss := map2 Qmult (map qmean loss) mse_loss_weights in
  (* [loss] has one dimension from here on: both means below are taken
     with an empty [dim] list, that is over all entries *)
  let mean_mask_values := qmean (List.concat mask) in
  let mean_mask_values := mean_mask_values / mean_mask_values in
  let loss := qmean loss / mean_mask_values in
  loss.

(** [sum(p.abs().sum() for p in ps) / sum(p.numel() for p in ps)]; with no
    parameter at all both sums are the integer 0. *)
Definition l1_norm (unet_lora_parameters : list (list Q)) : result Q :=
  match unet_lora_parameters with
  | [] => Raise ZeroDivisionError
  | _ =>
      Ok (qsum (map (fun p => qsum (map Qabs p)) unet_lora_parameters)
          / inject_Z
              (Z.of_nat (List.length (List.concat unet_lora_parameters))))
  end.

(** [x > 0.0] *)
Definition positive (x : Q) : bool := negb (Qle_bool x 0).

(** Lines 376-416. *)
Definition compute_loss (snr_gamma : option Gamma) (l1_penalty : Q)
  (prediction_type : string) (snr : list Q) (pred target mask : Tensor)
  (unet_lora_parameters : list (list Q)) : result Q :=
  let loss :=
    match snr_gamma with
    | None => loss_plain pred target mask
    | Some g => loss_snr prediction_type g snr pred target mask
    end in
  if positive l1_penalty then
    n <- l1_norm unet_lora_parameters ;;
    Ok (loss + l1_penalty * n)
  else Ok loss.

(** The plain mean squared error, [F.mse_loss(pred, target)]: the mean of
    the squared differences over all entries. *)
Definition mse (pred target : Tensor) : Q :=
  qmean (List.concat (sq_err pred target)).

(** A tensor of shape (B, n). *)
Definition has_shape (B n : nat) (t : Tensor) : Prop :=
  List.length t = B /\ Forall (fun row => List.length row = n) t.

(** Every entry of the tensor is [c]. *)
Definition uniform (c : Q) (t : Tensor) : Prop :=
  Forall (Forall (fun x => x == c)) t.

End Loss.

(** ** src/trainer/trainer.py: [Trainer.train]

    Modelled: the construction of the two optimizers (lines 148-193), the
    epoch arithmetic (212-232), the loop (248-519) and the final save
    (525-571).  The state is what the loop reads and writes of its own: the
    step counters, the two optimizer handles, the recorded learning rates,
    the checkpoint directories on disk, how often the pivot block ran, and
    whether the local [target_size], which the final save reads, is bound.
    Model loading, the forward and backward passes, the embedding handler,
    rendering and the [debug] plots act on tensors and files outside this
    state ([debug] is taken to be off).  [get_avg_lr] is the function of
    [utils/utils.py]. *)

Module Trainer.

(** The fields of [self.config] that the modelled lines read
    ([TrainerConfig] itself is declared outside the sources at hand). *)
Record TrainerConfig : Type := mkTrainerConfig {
  optimizer_name : string;
  is_lora : bool;
  scale_lr_based_on_grad_acc : bool;
  hard_pivot : bool;
  textual_inversion_lr : Q;
  textual_inversion_weight_decay : Q;
  lora_weight_decay : Q;
  l1_penalty : Q;
  max_train_steps : option Z;
  gradient_accumulation_steps : Z;
  checkpointing_steps : Z
}.

(** The collaborators of the loop. *)
Record World : Type := mkWorld {
  (** [len(train_dataloader)] *)
  n_batches : nat;
  (** [noise_scheduler.config.prediction_type] *)
  prediction_type : string;
  (** the token-embedding parameters of the text encoders *)
  text_encoder_parameters : list Param;
  (** the trainable parameters of the PEFT-wrapped unet *)
  unet_lora_parameters : list Param;
  (** the learning rate that the scheduler returned by [get_scheduler]
      leaves, when it is constructed, in a group constructed with the given
      rate (the identity for a constant schedule); the scheduler is never
      stepped afterwards *)
  sched_lr0 : Q -> Q;
  (** what [optimizer_prod.step()] does to the Prodigy optimizer *)
  prodigy_step : Optimizer -> Optimizer;
  (** the float square root used by [get_avg_lr] *)
  fsqrt : Q -> Q
}.

Record State : Type := mkState {
  global_step : Z;
  last_save_step : Z;
  optimizer : option Optimizer;
  optimizer_prod : option Optimizer;
  ti_lrs : list Q;
  lora_lrs : list Q;
  (** [k] is in the list when the directory [checkpoints/checkpoint-k]
      exists; in order of creation *)
  checkpoints : list Z;
  (** number of times the pivot block (lines 275-284) ran *)
  pivots : Z;
  (** whether the local variable [target_size] is bound: its only
      assignment is line 323, inside the loop body *)
  target_size_bound : bool
}.

Definition with_optimizer (st : State) (o : option Optimizer) : State :=
  mkState (global_step st) (last_save_step st) o (optimizer_prod st)
          (ti_lrs st) (lora_lrs st) (checkpoints st) (pivots st)
          (target_size_bound st).

Definition with_optimizer_prod (st : State) (o : option Optimizer) : State :=
  mkState (global_step st) (last_save_step st) (optimizer st) o
          (ti_lrs st) (lora_lrs st) (checkpoints st) (pivots st)
          (target_size_bound st).

Definition with_pivots (st : State) (p : Z) : State :=
  mkState (global_step st) (last_save_step st) (optimizer st)
          (optimizer_prod st) (ti_lrs st) (lora_lrs st) (checkpoints st) p
          (target_size_bound st).

Definition record_lrs (st : State) (lora ti : Q) : State :=
  mkState (global_step st) (last_save_step st) (optimizer st)
          (optimizer_prod st) (ti_lrs st ++ [ti]) (lora_lrs st ++ [lora])
          (checkpoints st) (pivots st) (target_size_bound st).

(** [save_lora] into [checkpoint-{global_step}] and
    [last_save_step = global_step]. *)
Definition save_checkpoint (st : State) : State :=
  mkState (global_step st) (global_step st) (optimizer st)
          (optimizer_prod st) (ti_lrs st) (lora_lrs st)
          (checkpoints st ++ [global_step st]) (pivots st)
          (target_size_bound st).

Definition advance (st : State) : State :=
  mkState (global_step st + 1) (last_save_step st) (optimizer st)
          (optimizer_prod st) (ti_lrs st) (lora_lrs st) (checkpoints st)
          (pivots st) (target_size_bound st).

(** Line 323: [target_size = (resolution, resolution)]. *)
Definition bind_target_size (st : State) : State :=
  mkState (global_step st) (last_save_step st) (optimizer st)
          (optimizer_prod st) (ti_lrs st) (lora_lrs st) (checkpoints st)
          (pivots st) true.

(** [math.ceil(a / b)] on integers. *)
Definition ceil_div (a b : Z) : result Z :=
  if b =? 0 then Raise ZeroDivisionError else Ok (- ((- a) / b)).

(** Lines 148-193: [(optimizer, optimizer_prod)], or [None] when no branch
    of the dispatch on [optimizer_name] binds the two names. *)
Definition build_optimizers (cfg : TrainerConfig) (w : World)
  : option (option Optimizer * option Optimizer) :=
  let params_to_optimize :=
    [ Optim.mkSpec (text_encoder_parameters w)
                   (Some (textual_inversion_lr cfg))
                   (Some (textual_inversion_weight_decay cfg)) ] in
  let params_to_optimize_prodigy :=
    [ Optim.mkSpec (unet_lora_parameters w) (Some 1%Q)
                   (Some (lora_weight_decay cfg)) ] in
  if String.eqb (optimizer_name cfg) "adamw" then
    Some (Some (Optim.new_adamw params_to_optimize (1 # 1000) 0), None)
  else if String.eqb (optimizer_name cfg) "prodigy" then
    Some (Some (Optim.new_adamw params_to_optimize (1 # 1000)
                  (textual_inversion_weight_decay cfg)),
          Some (Optim.new_prodigy params_to_optimize_prodigy (33 # 100) 1
                  (lora_weight_decay cfg) (9 # 10, 99 # 100)%Q true))
  else None.

(** What constructing the scheduler does to the optimizer it is given. *)
Definition get_scheduler (w : World) (o : Optimizer) : Optimizer :=
  mkOptimizer (algo o)
    (option_map (map (fun g => set_lr g (sched_lr0 w (lr g))))
                (param_groups o)).

(** Lines 39-232, as far as they decide the handles and
    [num_train_epochs]. *)
Definition setup (cfg : TrainerConfig) (w : World)
  : result (option Optimizer * option Optimizer * Z) :=
  if scale_lr_based_on_grad_acc cfg then Raise UnboundLocalError
  else if negb (is_lora cfg) then Raise UnboundLocalError
  else
    let handles := build_optimizers cfg w in
    num_update_steps_per_epoch <-
      ceil_div (Z.of_nat (n_batches w)) (gradient_accumulation_steps cfg) ;;
    max_train_steps_ <-
      match max_train_steps cfg with
      | None => Raise UnboundLocalError
      | Some m => Ok m
      end ;;
    ' (optimizer_, optimizer_prod_) <-
      match handles with
      | None => Raise UnboundLocalError
      | Some (o, p) => Ok (option_map (get_scheduler w) o, p)
      end ;;
    num_train_epochs <- ceil_div max_train_steps_ num_update_steps_per_epoch ;;
    Ok (optimizer_, optimizer_prod_, num_train_epochs).

(** [optimizer.param_groups[0]['lr'] = v] *)
Definition write_first_group_lr (optimizer_ : option Optimizer) (v : Q)
  : result Optimizer :=
  match optimizer_ with
  | None => Raise AttributeError
  | Some o =>
      match param_groups o with
      | None => Raise TypeError
      | Some [] => Raise IndexError
      | Some (g :: gs) => Ok (mkOptimizer (algo o) (Some (set_lr g v :: gs)))
      end
  end.

(** Line 287-290: the rate written at [(epoch, step)]. *)
Definition decayed_lr (cfg : TrainerConfig) (w : World) (num_train_epochs : Z)
  (epoch step : Z) : Q :=
  let finegrained_epoch :=
    (inject_Z epoch + inject_Z step / inject_Z (Z.of_nat (n_batches w)))%Q in
  let completion_f := (finegrained_epoch / inject_Z num_train_epochs)%Q in
  (textual_inversion_lr cfg * (1 - completion_f) ^ 2)%Q.

(** Lines 272-290.  The pivot empties the optimizer object
    ([param_groups = None], its state entries deleted) and drops the handle;
    nothing reaches the emptied object afterwards. *)
Definition pivot_or_decay (cfg : TrainerConfig) (w : World)
  (num_train_epochs epoch step : Z) (st : State) : result State :=
  if hard_pivot cfg then
    if num_train_epochs / 2 <=? epoch then
      match optimizer st with
      | Some _ => Ok (with_pivots (with_optimizer st None) (pivots st + 1))
      | None => Ok st
      end
    else Ok st
  else
    o <- write_first_group_lr (optimizer st)
           (decayed_lr cfg w num_train_epochs epoch step) ;;
    Ok (with_optimizer st (Some o)).

(** Lines 370-373. *)
Definition check_prediction_type (w : World) : result unit :=
  if String.eqb (prediction_type w) "epsilon" then Ok tt
  else Raise (NotImplementedError
                ("Not implemented for noise_scheduler.config.prediction_type: "
                 ++ prediction_type w)).

(** Lines 376-416, as far as the state is concerned.  The value of the
    loss is [Loss.compute_loss] on tensors that the state does not hold;
    computing it raises only in the L1 term ([Loss.l1_norm]), when there is
    no adapter parameter at all. *)
Definition check_loss (cfg : TrainerConfig) (w : World) : result unit :=
  if Loss.positive (l1_penalty cfg) then
    match unet_lora_parameters w with
    | [] => Raise ZeroDivisionError
    | _ :: _ => Ok tt
    end
  else Ok tt.

(** Line 429: [(step + 1) % gradient_accumulation_steps == 0 or last_batch],
    once the modulus is known not to be zero. *)
Definition boundary (cfg : TrainerConfig) (w : World) (step : Z) : bool :=
  let last_batch := step + 1 =? Z.of_nat (n_batches w) in
  ((step + 1) mod gradient_accumulation_steps cfg =? 0) || last_batch.

(** Lines 428-440: on an accumulation boundary both optimizers step (the
    AdamW step leaves its groups' entries as they are). *)
Definition optimizer_steps (cfg : TrainerConfig) (w : World) (step : Z)
  (st : State) : result State :=
  if gradient_accumulation_steps cfg =? 0 then Raise ZeroDivisionError
  else if boundary cfg w step
  then Ok (with_optimizer_prod st
             (option_map (prodigy_step w) (optimizer_prod st)))
  else Ok st.

(** Lines 444-447: [optimizer.param_groups[0]['lr']], or 0.0 when reading
    it raises. *)
Definition recorded_ti (optimizer_ : option Optimizer) : Q :=
  match first_group_lr optimizer_ with
  | Ok v => v
  | Raise _ => 0%Q
  end.

(** Lines 443-447. *)
Definition track_lrs (w : World) (st : State) : result State :=
  lora <- Utils.get_avg_lr (fsqrt w) (optimizer_prod st) ;;
  Ok (record_lrs st lora (recorded_ti (optimizer st))).

(** Lines 450-469. *)
Definition periodic_checkpoint (cfg : TrainerConfig) (st : State)
  : result State :=
  if checkpointing_steps cfg =? 0 then Raise ZeroDivisionError
  else if global_step st mod checkpointing_steps cfg =? 0
  then Ok (save_checkpoint st)
  else Ok st.

(** The body of the inner loop, lines 270-519. *)
Definition train_step (cfg : TrainerConfig) (w : World)
  (num_train_epochs epoch step : Z) (st : State) : result State :=
  st <- pivot_or_decay cfg w num_train_epochs epoch step st ;;
  let st := bind_target_size st in
  _ <- check_prediction_type w ;;
  _ <- check_loss cfg w ;;
  st <- optimizer_steps cfg w step st ;;
  st <- track_lrs w st ;;
  st <- periodic_checkpoint cfg st ;;
  Ok (advance st).

(** [for i in range(lo, lo + count): st = body(i, st)] *)
Fixpoint for_range (count : nat) (lo : Z) (body : Z -> State -> result State)
  (st : State) : result State :=
  match count with
  | O => Ok st
  | S count' =>
      st' <- body lo st ;;
      for_range count' (lo + 1) body st'
  end.

(** [for step, batch in enumerate(train_dataloader)] *)
Definition train_epoch (cfg : TrainerConfig) (w : World)
  (num_train_epochs epoch : Z) (st : State) : result State :=
  for_range (n_batches w) 0 (train_step cfg w num_train_epochs epoch) st.

(** [for epoch in range(first_epoch, num_train_epochs)] *)
Definition train_loop (cfg : TrainerConfig) (w : World) (num_train_epochs : Z)
  (st : State) : result State :=
  for_range (Z.to_nat num_train_epochs) 0 (train_epoch cfg w num_train_epochs)
            st.

(** Lines 248-261: the checkpoint root is emptied; [target_size] is not
    bound yet. *)
Definition initial_state (optimizer_ optimizer_prod_ : option Optimizer)
  : State :=
  mkState 0 0 optimizer_ optimizer_prod_ [] [] [] 0 false.

Definition dir_exists (st : State) (k_ : Z) : bool :=
  existsb (Z.eqb k_) (checkpoints st).

(** Lines 526-529: the step that names the directory of the final save. *)
Definition output_save_dir (st : State) : Z :=
  if 51 <? global_step st - last_save_step st
  then global_step st
  else last_save_step st.

(** Lines 538-547: [save_lora] into that directory. *)
Definition save_final (st : State) : State :=
  mkState (global_step st) (last_save_step st) (optimizer st)
          (optimizer_prod st) (ti_lrs st) (lora_lrs st)
          (checkpoints st ++ [output_save_dir st]) (pivots st)
          (target_size_bound st).

(** Lines 525-571.  When the directory does not exist yet the final save
    writes it and then calls [render_images(pipe, target_size, ...)], which
    reads the local [target_size]: a run whose loop body never ran raises
    [UnboundLocalError] there. *)
Definition final_save (st : State) : result (State * Z) :=
  if negb (dir_exists st (output_save_dir st)) then
    let st' := save_final st in
    if target_size_bound st' then Ok (st', output_save_dir st)
    else Raise UnboundLocalError
  else Ok (st, output_save_dir st).

(** [Trainer.train]. *)
Definition train (cfg : TrainerConfig) (w : World) : result (State * Z) :=
  ' (optimizer_, optimizer_prod_, num_train_epochs) <- setup cfg w ;;
  st <- train_loop cfg w num_train_epochs
          (initial_state optimizer_ optimizer_prod_) ;;
  final_save st.

(** *** Quantities used to state what a run does *)


(** The two handles that the "prodigy" branch constructs. *)
Definition ti_optimizer0 (cfg : TrainerConfig) (w : World) : Optimizer :=
  get_scheduler w
    (Optim.new_adamw
       [ Optim.mkSpec (text_encoder_parameters w)
                      (Some (textual_inversion_lr cfg))
                      (Some (textual_inversion_weight_decay cfg)) ]
       (1 # 1000) (textual_inversion_weight_decay cfg)).

Definition prodigy0 (cfg : TrainerConfig) (w : World) : Optimizer :=
  Optim.new_prodigy
    [ Optim.mkSpec (unet_lora_parameters w) (Some 1%Q)
                   (Some (lora_weight_decay cfg)) ]
    (33 # 100) 1 (lora_weight_decay cfg) (9 # 10, 99 # 100)%Q true.

(** [num_update_steps_per_epoch] and [num_train_epochs] for
    [max_train_steps = m]. *)
Definition update_steps_per_epoch (cfg : TrainerConfig) (w : World) : Z :=
  - ((- Z.of_nat (n_batches w)) / gradient_accumulation_steps cfg).

Definition epochs (cfg : TrainerConfig) (w : World) (m : Z) : Z :=
  - ((- m) / update_steps_per_epoch cfg w).





(** The Prodigy optimizer can be queried for its effective rate after any
    number of its steps. *)
Definition lr_query_ok (w : World) (p : Optimizer) : bool :=
  is_ok (Utils.get_avg_lr (fsqrt w) (Some p)).

Definition prodigy_reports (w : World) (p : Optimizer) : Prop :=
  forall i : nat, lr_query_ok w (Nat.iter i (prodigy_step w) p) = true.

Definition has_adapter_parameters (w : World) : bool :=
  match unet_lora_parameters w with
  | [] => false
  | _ :: _ => true
  end.

(** A configuration on which the set-up goes through and no step of the
    loop divides by zero, meets an unsupported prediction type or fails in
    the L1 term of the loss. *)
Definition runnable (cfg : TrainerConfig) (w : World) : bool :=
  String.eqb (optimizer_name cfg) "prodigy"
  && is_lora cfg
  && negb (scale_lr_based_on_grad_acc cfg)
  && (0 <? gradient_accumulation_steps cfg)
  && (0 <? checkpointing_steps cfg)
  && (0 <? Z.of_nat (n_batches w))
  && String.eqb (prediction_type w) "epsilon"
  && (negb (Loss.positive (l1_penalty cfg)) || has_adapter_parameters w).




Definition decay_view (st : State) : Prop :=
  exists o g gs, optimizer st = Some o /\ param_groups o = Some (g :: gs).


End Trainer.

(** ** The textual-inversion schedule as the specification words it *)

Module Schedule.

Definition completion_fraction (epoch step_within_epoch : Z)
  (steps_per_epoch : nat) (total_epochs : Z) : Q :=
  ((inject_Z epoch
    + inject_Z step_within_epoch / inject_Z (Z.of_nat steps_per_epoch))
   / inject_Z total_epochs)%Q.

Definition lr (base_lr f : Q) : Q := (base_lr * (1 - f) ^ 2)%Q.

End Schedule.

(** ** Sample inputs, used to run the definitions above *)

Module Samples.

Definition demo_env : Config.InitEnv :=
  Config.mkEnv (fun _ => [("path", "models/sdxl.safetensors")]%string)
               "03_10-24-00" 1700000000 1700000001 (Some 0)
               (fun _ => "1.0"%string).

Definition demo_data (dora : bool) : Config.TrainingConfig :=
  Config.mkConfig Config.style Config.blip Config.sdxl None None 512 360 None
                  1 (2 # 1000) (1 # 100) dora true None None
                  "lora_models/unnamed" 2 ["<s0>"; "<s1>"]%string
                  [("TOK", "<s0><s1>")]%string "cuda:0" 0 (1 # 100000).

(** Two examples of one entry each; the second mask is lighter. *)
Definition pred2 : Loss.Tensor := [[1]; [0]]%Q.
Definition target2 : Loss.Tensor := [[0]; [0]]%Q.
Definition mask2 : Loss.Tensor := [[3 # 4]; [1 # 4]]%Q.
Definition snr2 : list Q := [1; 1]%Q.

(** One example of one entry under a uniform mask of one half. *)
Definition pred1 : Loss.Tensor := [[1]]%Q.
Definition target1 : Loss.Tensor := [[0]]%Q.
Definition half_mask1 : Loss.Tensor := [[1 # 2]]%Q.

(** A world of [n] batches per epoch, a constant schedule, and a Prodigy
    whose step advances the counter [k] of every group. *)
Definition bump_k (o : Optimizer) : Optimizer :=
  mkOptimizer (algo o)
    (option_map
       (map (fun g => mkGroup (params g) (lr g) (weight_decay g) (betas g)
                              (d g) (option_map (Z.add 1) (k g))
                              (use_bias_correction g) (d_coef g)))
       (param_groups o)).

(** The Prodigy optimizer of the "prodigy" branch once its counter is
    [kk]. *)
Definition prodigy_at (cfg : Trainer.TrainerConfig) (w : Trainer.World)
  (kk : Z) : Optimizer :=
  mkOptimizer Prodigy
    (Some [mkGroup (Trainer.unet_lora_parameters w) 1
                   (Trainer.lora_weight_decay cfg)
                   (Some (9 # 10, 99 # 100)%Q) (Some Optim.prodigy_d0)
                   (Some kk) (Some true) (Some (33 # 100)%Q)]).

Definition world (n : nat) : Trainer.World :=
  Trainer.mkWorld n "epsilon" [mkParam 768 true] [mkParam 1024 true]
                  (fun q => q) bump_k (fun q => q).


Definition trainer_config (name : string) (pivot : bool) (m g cs : Z)
  : Trainer.TrainerConfig :=
  Trainer.mkTrainerConfig name true false pivot (1 # 1000) 0 (2 # 1000)
                          (1 # 100)
                          (Some m) g cs.

End Samples.

(** ** src/trainer/utils/utils.py: [pick_best_gpu_id]

    The two CUDA queries are the function's input; [None] stands for a call
    that raises.  The function returns its value together with what it
    leaves in the environment variable [CUDA_VISIBLE_DEVICES]. *)

Module Gpu.

Record Cuda : Type := mkCuda {
  (** [torch.cuda.device_count()] *)
  device_count : option nat;
  (** the free memory reported by [torch.cuda.mem_get_info(device=i)] *)
  mem_get_info : nat -> option Z
}.

(** The loop that fills [gpu_mem]; it stops at the first query that
    raises. *)
Fixpoint read_free (c : Cuda) (gpu_ids : list nat) : option (list Z) :=
  match gpu_ids with
  | [] => Some []
  | gpu_id :: rest =>
      match mem_get_info c gpu_id with
      | None => None
      | Some free_memory =>
          match read_free c rest with
          | None => None
          | Some gpu_mem => Some (free_memory :: gpu_mem)
          end
      end
  end.

(** [np.argmax]: the index of the first largest entry. *)
Fixpoint argmax_from (best_i : nat) (best : Z) (i : nat) (l : list Z) : nat :=
  match l with
  | [] => best_i
  | x :: l' =>
      if best <? x then argmax_from i x (S i) l'
      else argmax_from best_i best (S i) l'
  end.

Definition argmax (l : list Z) : nat :=
  match l with
  | [] => O
  | x :: l' => argmax_from O x 1 l'
  end.

Definition pick_best_gpu_id (c : Cuda) : option Z * string :=
  let fallback := (Some 0, "0"%string) in
  match device_count c with
  | None => fallback
  | Some n =>
      let gpu_ids := seq 0 n in
      match read_free c gpu_ids with
      | None => fallback
      | Some gpu_mem =>
          if Nat.eqb (List.length gpu_ids) 0 then (None, EmptyString)
          else
            let best_gpu_id := Z.of_nat (nth (argmax gpu_mem) gpu_ids O) in
            (Some best_gpu_id, Config.str_int best_gpu_id)
      end
  end.

(** The environment of [TrainingConfig.__init__] on a machine whose CUDA
    queries are [c]: [gpu_id = pick_best_gpu_id()]. *)
Definition env_on (env : Config.InitEnv) (c : Cuda) : Config.InitEnv :=
  Config.mkEnv (Config.pretrained_models env) (Config.timestamp_short env)
               (Config.time_at_seed env) (Config.time_at_start env)
               (fst (pick_best_gpu_id c)) (Config.str_float env).

End Gpu.

(** ** src/trainer/config.py: [save_as_json] and [from_json]

    The files are a list of (path, content), the newest first; the content
    of a saved file is the field dictionary.  On loading, [cls(...)] first
    validates the dictionary (pydantic, external) and then runs the rest of
    [__init__] on the validated fields. *)

Module ConfigIO.

Definition Files : Type := list (string * Config.TrainingConfig).

(** [json.load(open(file_path, 'r'))]; [None] when there is no such file. *)
Fixpoint read (fs : Files) (file_path : string)
  : option Config.TrainingConfig :=
  match fs with
  | [] => None
  | (p, content) :: rest =>
      if String.eqb p file_path then Some content else read rest file_path
  end.

(** [open(file_path, 'w')] replaces what the path held. *)
Definition save_as_json (c : Config.TrainingConfig) (file_path : string)
  (fs : Files) : Files :=
  (file_path, c) :: fs.

Section Validation.

(** [super().__init__(...)] on a loaded dictionary: the validated fields,
    or [None] when the validation refuses the dictionary (as pydantic 2
    does for a [null] in a field declared [List[int]] or [float], which is
    what the never-assigned [train_img_size] and [train_aspect_ratio] are
    saved as). *)
Variable validate : Config.TrainingConfig -> option Config.TrainingConfig.

(** The class is constructed from the loaded fields: the constructor runs
    again; [None] when there is no such file or the validation refuses. *)
Definition from_json (env : Config.InitEnv) (fs : Files) (file_path : string)
  : option Config.TrainingConfig :=
  match read fs file_path with
  | None => None
  | Some data => option_map (Config.init env) (validate data)
  end.

End Validation.

(** What [__init__] appends to [output_dir]. *)
Definition output_dir_suffix (env : Config.InitEnv)
  (data : Config.TrainingConfig) : string :=
  ("--" ++ Config.timestamp_short env ++ "-"
   ++ Config.version_str (Config.sd_model_version data)
   ++ "_" ++ Config.concept_str (Config.concept_mode data)
   ++ "_" ++ (if Config.use_dora data then "dora" else "lora")
   ++ "_" ++ Config.str_int (Config.resolution data)
   ++ "_" ++ Config.str_float env (Config.prodigy_d_coef data)
   ++ "_" ++ Config.caption_str (Config.caption_model data)
   ++ "_" ++ Config.str_int (Config.max_train_steps data))%string.

End ConfigIO.

(** ** src/trainer/optimizer.py: [get_unet_lora_parameters] *)

Module Lora.

Section Peft.

(** [get_peft_model(unet, LoraConfig(r, lora_alpha, use_dora))] (external):
    the parameters of the wrapped model. *)
Variable get_peft_model : list Param -> Z -> Q -> bool -> list Param.

Definition get_unet_lora_parameters (lora_rank : Z)
  (lora_alpha_multiplier lora_weight_decay : Q) (use_dora : bool)
  (unet : list Param)
  : list Param * list Optim.GroupSpec * list Param :=
  let unet' :=
    get_peft_model unet lora_rank
      (inject_Z lora_rank * lora_alpha_multiplier)%Q use_dora in
  let unet_lora_parameters := filter requires_grad unet' in
  let unet_trainable_params :=
    [ Optim.mkSpec unet_lora_parameters None
        (Some (if negb use_dora then lora_weight_decay else 0%Q)) ] in
  (unet', unet_trainable_params, unet_lora_parameters).

End Peft.

End Lora.

(** ** More quantities on the loss and on whole runs *)

Module LossMore.

(** The normalised SNR weights of [Loss.loss_snr] (lines 391-402). *)
Definition snr_weights (prediction_type : string) (g : Loss.Gamma)
  (snr : list Q) : list Q :=
  let base_weight := map (fun s => Loss.clip g s / s)%Q snr in
  let mse_loss_weights :=
    if String.eqb prediction_type "v_prediction"
    then map (fun w => w + 1)%Q base_weight
    else base_weight in
  map (fun w => w / Loss.qmean mse_loss_weights)%Q mse_loss_weights.

(** The mask multiplied by a constant. *)
Definition scale (c : Q) (t : Loss.Tensor) : Loss.Tensor :=
  map (map (Qmult c)) t.

Definition nonneg (t : Loss.Tensor) : Prop :=
  Forall (Forall (fun x => 0 <= x)%Q) t.

(** No division of lines 380-382 is a division by zero: the mask mean of
    every example is not 0, and neither is the mean of these means. *)
Definition divisors_nonzero (mask : Loss.Tensor) : Prop :=
  Forall (fun row => ~ Loss.qmean row == 0)%Q mask
  /\ ~ (Loss.qmean (map Loss.qmean mask) == 0)%Q.

(** Entry by entry, the left list is [c] times the right one. *)
Definition scaled_by (c : Q) (l' l : list Q) : Prop :=
  Forall2 (fun x' x => x' == c * x)%Q l' l.

(** A cap [snr_gamma] that is positive ([float('inf')] included). *)
Definition positive_cap (g : Loss.Gamma) : Prop :=
  match g with
  | Loss.Finite q => (0 < q)%Q
  | Loss.Infinite => True
  end.

End LossMore.

Module Runs.





End Runs.

(** ** More sample inputs *)

Module MoreSamples.

(** Two devices, the second with more free memory. *)
Definition two_gpus : Gpu.Cuda :=
  Gpu.mkCuda (Some 2%nat)
             (fun i => Some (if Nat.eqb i 0 then 4000 else 9000)).

Definition two_encoders : list (option Optim.TextEncoder) :=
  [ Some [ ("text_model.embeddings.token_embedding.weight"%string,
            mkParam 37945344 false);
           ("text_model.embeddings.position_embedding.weight"%string,
            mkParam 59136 true) ];
    None ].

(** A PEFT wrapper that adds one trainable adapter parameter per frozen
    parameter. *)
Definition add_adapters (unet : list Param) (r : Z) (alpha : Q)
  (use_dora : bool) : list Param :=
  flat_map (fun p => [mkParam (numel p) false; mkParam (r * 2) true]) unet.

End MoreSamples.

(** * Properties *)

(** ** The error monad *)

Lemma bind_ok {A B : Type} (m : result A) (f : A -> result B) (b : B) :
  bind m f = Ok b -> exists a, m = Ok a /\ f a = Ok b.
Proof.
  destruct m as [a|e]; simpl; intros H; [exists a; auto | discriminate].
Qed.

(** ** The effective-learning-rate query *)

(** C7 (evaluated on the code).  On a null handle the [try] body fails on
    [optimizer.param_groups], and so does the handler, which reads
    [optimizer.param_groups[0]['lr']] again: the call raises
    [AttributeError] instead of returning 0. *)
Theorem get_avg_lr_None_raises (fsqrt : Q -> Q) :
  Utils.get_avg_lr fsqrt None = Raise AttributeError.
Proof. reflexivity. Qed.

(** The same happens on a handle that the pivot has emptied
    ([param_groups = None]). *)
Lemma get_avg_lr_emptied_raises (fsqrt : Q -> Q) (a : Algo) :
  Utils.get_avg_lr fsqrt (Some (mkOptimizer a None)) = Raise TypeError.
Proof. reflexivity. Qed.

(** On an optimizer without Prodigy's keys (AdamW) the handler returns the
    rate of the first group. *)
Lemma get_avg_lr_adamw (fsqrt : Q -> Q) (specs : list Optim.GroupSpec)
  (s : Optim.GroupSpec) (lr_ wd : Q) :
  Utils.get_avg_lr fsqrt (Some (Optim.new_adamw (s :: specs) lr_ wd))
  = Ok (Optim.from_option (Optim.spec_lr s) lr_).
Proof. reflexivity. Qed.

(** With no group at all the query is 0. *)
Lemma get_avg_lr_no_group (fsqrt : Q -> Q) (a : Algo) :
  Utils.get_avg_lr fsqrt (Some (mkOptimizer a (Some []))) = Ok 0%Q.
Proof. reflexivity. Qed.

(** ** Optimizer construction *)

Lemma eqb_neq_false (a b : string) : a <> b -> String.eqb a b = false.
Proof. intros H. apply String.eqb_neq. exact H. Qed.

(** C8.  Any optimizer name other than "adamw" and "prodigy" makes each
    constructor of [optimizer.py] raise [NotImplementedError]; none of them
    returns an optimizer for such a name. *)
Theorem unknown_optimizer_name_raises (optimizer_name : string) :
  optimizer_name <> "adamw"%string ->
  optimizer_name <> "prodigy"%string ->
  (forall d_coef_ wd dora ps,
      Optim.get_unet_optimizer d_coef_ wd dora ps optimizer_name
      = Raise (NotImplementedError
                 ("Invalid optimizer_name for unet: " ++ optimizer_name)))
  /\ (forall text_encoders ti_lr ti_wd,
         Optim.get_textual_inversion_optimizer text_encoders ti_lr ti_wd
           optimizer_name
         = Raise (NotImplementedError
                    ("Invalid optimizer_name: '" ++ optimizer_name ++ "'")))
  /\ (forall peft text_encoders rank alpha dora lora_lr wd,
         Optim.get_optimizer_and_peft_models_text_encoder_lora peft
           text_encoders rank alpha dora optimizer_name lora_lr wd
         = Raise (NotImplementedError
                    ("Text encoder LoRA finetuning is not yet implemented for optimizer: "
                     ++ optimizer_name))).
Proof.
  intros Ha Hp.
  pose proof (eqb_neq_false _ _ Ha) as Ea.
  pose proof (eqb_neq_false _ _ Hp) as Ep.
  repeat split; intros.
  - unfold Optim.get_unet_optimizer. rewrite Ea, Ep. reflexivity.
  - unfold Optim.get_textual_inversion_optimizer. rewrite Ep, Ea. reflexivity.
  - unfold Optim.get_optimizer_and_peft_models_text_encoder_lora.
    rewrite Ea. reflexivity.
Qed.

Lemma unknown_optimizer_name_raises_witness :
  Optim.get_unet_optimizer 1 (2 # 1000) false
    [Optim.mkSpec [mkParam 8 true] None None] "sgd"
  = Raise (NotImplementedError "Invalid optimizer_name for unet: sgd").
Proof.
  apply (unknown_optimizer_name_raises "sgd"); discriminate.
Defined.

(** The two accepted names do construct an optimizer. *)
Lemma known_optimizer_names_construct d_coef_ wd dora ps :
  is_ok (Optim.get_unet_optimizer d_coef_ wd dora ps "adamw") = true
  /\ is_ok (Optim.get_unet_optimizer d_coef_ wd dora ps "prodigy") = true.
Proof. split; reflexivity. Qed.

(** ** The configuration object *)

(** C10.  A configuration constructed with [use_dora = true] has
    [l1_penalty], [lora_weight_decay] and [text_encoder_lora_weight_decay]
    equal to 0 whatever the caller supplied, and with that coefficient the
    loss is returned without the L1 term. *)
Theorem dora_disables_l1_and_weight_decay (env : Config.InitEnv)
  (data : Config.TrainingConfig) :
  Config.use_dora data = true ->
  Config.l1_penalty (Config.init env data) = 0%Q
  /\ Config.lora_weight_decay (Config.init env data) = 0%Q
  /\ Config.text_encoder_lora_weight_decay (Config.init env data) = 0%Q
  /\ Config.use_dora (Config.init env data) = true
  /\ forall snr_gamma prediction_type snr pred target mask unet_lora_parameters,
      Loss.compute_loss snr_gamma (Config.l1_penalty (Config.init env data))
        prediction_type snr pred target mask unet_lora_parameters
      = Ok match snr_gamma with
           | None => Loss.loss_plain pred target mask
           | Some g => Loss.loss_snr prediction_type g snr pred target mask
           end.
Proof.
  intros H. unfold Config.init. simpl. rewrite H.
  repeat split; reflexivity.
Qed.

Lemma dora_disables_l1_and_weight_decay_witness :
  Config.l1_penalty (Samples.demo_data true) = (1 # 100)%Q
  /\ Config.l1_penalty
       (Config.init Samples.demo_env (Samples.demo_data true)) = 0%Q.
Proof.
  split; [reflexivity|].
  apply (dora_disables_l1_and_weight_decay Samples.demo_env
           (Samples.demo_data true)).
  reflexivity.
Defined.

(** Without DoRA the three coefficients are kept. *)
Lemma lora_keeps_l1_and_weight_decay (env : Config.InitEnv)
  (data : Config.TrainingConfig) :
  Config.use_dora data = false ->
  Config.l1_penalty (Config.init env data) = Config.l1_penalty data
  /\ Config.lora_weight_decay (Config.init env data)
     = Config.lora_weight_decay data
  /\ Config.text_encoder_lora_weight_decay (Config.init env data)
     = Config.text_encoder_lora_weight_decay data.
Proof.
  intros H. unfold Config.init. simpl. rewrite H. repeat split; reflexivity.
Qed.

(** ** The loss of one batch *)

Section LossFacts.

Import Loss.
Local Open Scope Q_scope.

Lemma qsum_app l1 l2 : qsum (l1 ++ l2) == qsum l1 + qsum l2.
Proof. induction l1 as [|a l1 IH]; simpl; [ring | rewrite IH; ring]. Qed.

Lemma qsum_concat (t : Tensor) : qsum (List.concat t) == qsum (map qsum t).
Proof.
  induction t as [|r t IH]; simpl; [reflexivity|].
  rewrite qsum_app, IH. reflexivity.
Qed.

Lemma qsum_Forall2 l1 l2 : Forall2 Qeq l1 l2 -> qsum l1 == qsum l2.
Proof.
  induction 1 as [|a b l1 l2 Hab _ IH]; simpl; [reflexivity|].
  rewrite Hab, IH. reflexivity.
Qed.

Lemma qmean_Forall2 l1 l2 : Forall2 Qeq l1 l2 -> qmean l1 == qmean l2.
Proof.
  intros H. unfold qmean. rewrite (qsum_Forall2 _ _ H).
  rewrite (Forall2_length H). reflexivity.
Qed.

Lemma qsum_scale (c : Q) (f : list Q -> Q) (t : Tensor) :
  qsum (map (fun e => c * f e) t) == c * qsum (map f t).
Proof. induction t as [|r t IH]; simpl; [ring | rewrite IH; ring]. Qed.

Lemma qsum_uniform (c : Q) (m : list Q) :
  Forall (fun x => x == c) m ->
  qsum m == inject_Z (Z.of_nat (List.length m)) * c.
Proof.
  induction 1 as [|x m Hx _ IH].
  - simpl. ring.
  - cbn [List.length qsum fold_right]. fold (qsum m).
    rewrite IH, Hx, Nat2Z.inj_succ. unfold Z.succ. rewrite inject_Z_plus. ring.
Qed.

Lemma inject_nat_nonzero (n : nat) :
  (0 < n)%nat -> ~ inject_Z (Z.of_nat n) == 0.
Proof.
  intros Hn H. unfold Qeq in H. simpl in H. lia.
Qed.

Lemma qmean_uniform (c : Q) (m : list Q) :
  (0 < List.length m)%nat -> Forall (fun x => x == c) m -> qmean m == c.
Proof.
  intros Hn H. unfold qmean. rewrite (qsum_uniform c m H).
  field. apply inject_nat_nonzero. exact Hn.
Qed.

Lemma qsum_masked_row (c : Q) (e m : list Q) :
  List.length m = List.length e -> Forall (fun x => x == c) m ->
  qsum (map2 Qmult e m) == c * qsum e.
Proof.
  revert m. induction e as [|a e IH]; intros [|b m] Hl Hm; simpl in *;
    try discriminate; try ring.
  inversion Hm as [|? ? Hb Hm']; subst.
  rewrite (IH m); [rewrite Hb; ring | lia | assumption].
Qed.

Lemma map2_length {A B C} (f : A -> B -> C) l1 l2 :
  List.length l2 = List.length l1 ->
  List.length (map2 f l1 l2) = List.length l1.
Proof.
  revert l2. induction l1 as [|a l1 IH]; intros [|b l2] H; simpl in *;
    try discriminate; auto.
Qed.

Lemma sq_err_shape (B n : nat) pred target :
  has_shape B n pred -> has_shape B n target ->
  has_shape B n (sq_err pred target).
Proof.
  intros [Hp Fp] [Ht Ft]. subst B. unfold sq_err, has_shape.
  revert target Ht Ft.
  induction pred as [|p pred IH]; intros [|t target] Ht Ft; simpl in *;
    try discriminate.
  - split; [reflexivity | constructor].
  - inversion Fp as [|? ? Hp1 Fp']; inversion Ft as [|? ? Ht1 Ft']; subst.
    destruct (IH Fp' target) as [L F]; [lia | assumption |].
    split; [simpl; f_equal; exact L|].
    constructor; [|exact F].
    rewrite map2_length; lia.
Qed.

(** Row by row: with a uniform mask and weights all equal to 1, the
    normalised masked error of an example is [c] times its mean error. *)
Lemma uniform_rows (c : Q) (n : nat) (errs mask : Tensor) (norm : list Q) :
  List.length mask = List.length errs ->
  List.length norm = List.length errs ->
  Forall (fun r => List.length r = n) errs ->
  Forall (fun r => List.length r = n) mask ->
  uniform c mask ->
  Forall (fun v => v == 1) norm ->
  Forall2 Qeq (map2 Qdiv (map qmean (map2 (map2 Qmult) errs mask)) norm)
              (map (fun e => c * qmean e) errs).
Proof.
  revert mask norm.
  induction errs as [|e errs IH]; intros [|m mask] [|v norm] Lm Ln Fe Fm Um Fn;
    simpl in *; try discriminate; [constructor|].
  inversion Fe as [|? ? He Fe']; inversion Fm as [|? ? Hm Fm'];
    inversion Um as [|? ? Um1 Um']; inversion Fn as [|? ? Hv Fn']; subst.
  constructor.
  - unfold qmean. rewrite map2_length by lia.
    rewrite (qsum_masked_row c e m) by (assumption || lia).
    rewrite Hv. unfold Qdiv.
    setoid_replace (/ 1) with 1 by reflexivity. ring.
  - apply IH; auto; lia.
Qed.

Lemma mean_of_row_means (B n : nat) (t : Tensor) :
  has_shape B n t -> qmean (map qmean t) == qmean (List.concat t).
Proof.
  intros [HB Hn].
  assert (Hlen : List.length (List.concat t) = (B * n)%nat).
  { subst B. induction Hn as [|r t Hr _ IH]; simpl; [reflexivity|].
    rewrite length_app, IH, Hr. reflexivity. }
  assert (Hsum : qsum (map qmean t)
                 == qsum (map qsum t) / inject_Z (Z.of_nat n)).
  { clear HB Hlen. induction Hn as [|r t Hr _ IH]; simpl.
    - unfold Qdiv. ring.
    - rewrite IH. unfold qmean. rewrite Hr. unfold Qdiv. ring. }
  unfold qmean at 1 3. rewrite length_map, HB, Hlen, Hsum, qsum_concat.
  rewrite Nat2Z.inj_mul, inject_Z_mult.
  unfold Qdiv. rewrite Qinv_mult_distr. ring.
Qed.

Lemma qmean_scale (c : Q) (f : list Q -> Q) (t : Tensor) :
  qmean (map (fun e => c * f e) t) == c * qmean (map f t).
Proof.
  unfold qmean. rewrite !length_map, qsum_scale. unfold Qdiv. ring.
Qed.

Lemma zero_penalty_not_positive (l1_penalty : Q) :
  l1_penalty == 0 -> positive l1_penalty = false.
Proof.
  intros H. unfold positive. apply negb_false_iff. apply Qle_bool_iff.
  rewrite H. apply Qle_refl.
Qed.

(** Under a uniform mask [c > 0] the normalised mask means are all 1 and
    the loss of the branch without SNR weights is [c] times the plain mean
    squared error. *)
Lemma loss_plain_uniform (c : Q) (B n : nat) (pred target mask : Tensor) :
  0 < c -> (0 < B)%nat -> (0 < n)%nat ->
  has_shape B n pred -> has_shape B n target -> has_shape B n mask ->
  uniform c mask ->
  loss_plain pred target mask == c * mse pred target.
Proof.
  intros Hc HB Hn Sp St [LM FM] Um.
  pose proof (sq_err_shape B n pred target Sp St) as [LE FE].
  assert (Hrows : Forall (fun v => v == c) (map qmean mask)).
  { apply Forall_forall. intros v Hv. apply in_map_iff in Hv as [r [<- Hr]].
    apply qmean_uniform.
    - rewrite Forall_forall in FM. rewrite (FM r Hr). exact Hn.
    - unfold uniform in Um. rewrite Forall_forall in Um. apply Um. exact Hr. }
  assert (Hk : qmean (map qmean mask) == c).
  { apply qmean_uniform; [rewrite length_map, LM; exact HB | exact Hrows]. }
  assert (Hnorm : Forall (fun v => v == 1)
                    (map (fun v => v / qmean (map qmean mask))
                         (map qmean mask))).
  { apply Forall_forall. intros v Hv. apply in_map_iff in Hv as [x [<- Hx]].
    rewrite Forall_forall in Hrows. rewrite (Hrows x Hx), Hk.
    field. intros H0. rewrite H0 in Hc. discriminate. }
  unfold loss_plain, masked_sq_err.
  assert (LN : List.length (map (fun v => v / qmean (map qmean mask))
                                (map qmean mask))
               = List.length (sq_err pred target))
    by (rewrite !length_map; lia).
  assert (LM' : List.length mask = List.length (sq_err pred target)) by lia.
  pose proof (uniform_rows c n (sq_err pred target) mask _ LM' LN FE FM Um
                Hnorm) as HR.
  rewrite (qmean_Forall2 _ _ HR).
  unfold mse. rewrite <- (mean_of_row_means B n) by (split; assumption).
  rewrite (qmean_scale c qmean). reflexivity.
Qed.

(** Scenario A: under the all-ones mask the loss without SNR weights is the
    plain mean squared error. *)
Lemma all_ones_mask_loss_is_mse (B n : nat) (pred target mask : Tensor) :
  (0 < B)%nat -> (0 < n)%nat ->
  has_shape B n pred -> has_shape B n target -> has_shape B n mask ->
  uniform 1 mask ->
  loss_plain pred target mask == mse pred target.
Proof.
  intros HB Hn Sp St Sm Um.
  rewrite (loss_plain_uniform 1 B n pred target mask); try assumption.
  - ring.
  - reflexivity.
Qed.

(** C3, as the code has it.  For a mask uniformly equal to [c > 0], with
    [snr_gamma = None] and [l1_penalty = 0], the training loss is [c] times
    the plain mean squared error of prediction and target; for the all-ones
    mask it is that mean squared error. *)
Theorem uniform_mask_loss (c : Q) (B n : nat) (pred target mask : Tensor)
  (l1_penalty : Q) (prediction_type : string) (snr : list Q)
  (unet_lora_parameters : list (list Q)) :
  0 < c -> (0 < B)%nat -> (0 < n)%nat ->
  has_shape B n pred -> has_shape B n target -> has_shape B n mask ->
  uniform c mask ->
  l1_penalty == 0 ->
  exists loss,
    compute_loss None l1_penalty prediction_type snr pred target mask
      unet_lora_parameters = Ok loss
    /\ loss == c * mse pred target
    /\ (c == 1 -> loss == mse pred target).
Proof.
  intros Hc HB Hn Sp St Sm Um Hl1.
  exists (loss_plain pred target mask).
  pose proof (loss_plain_uniform c B n pred target mask Hc HB Hn Sp St Sm Um)
    as Main.
  split; [|split].
  - unfold compute_loss. rewrite (zero_penalty_not_positive _ Hl1).
    reflexivity.
  - exact Main.
  - intros H1. rewrite Main, H1. ring.
Qed.

Lemma uniform_mask_loss_witness :
  exists loss,
    compute_loss None 0 "epsilon" [] Samples.pred1 Samples.target1
      Samples.half_mask1 [] = Ok loss
    /\ loss == (1 # 2) * mse Samples.pred1 Samples.target1
    /\ ((1 # 2) == 1 -> loss == mse Samples.pred1 Samples.target1).
Proof.
  apply (uniform_mask_loss (1 # 2) 1 1 Samples.pred1 Samples.target1
           Samples.half_mask1 0 "epsilon" [] []).
  - reflexivity.
  - lia.
  - lia.
  - split; [reflexivity | repeat constructor].
  - split; [reflexivity | repeat constructor].
  - split; [reflexivity | repeat constructor].
  - repeat constructor.
  - reflexivity.
Defined.

(** C3 as stated fails: under the uniform mask 1/2 the loss of
    prediction 1 against target 0 is 1/2, and the mean squared error is 1. *)
Lemma half_mask_gives_half_the_mse :
  ~ (forall (c : Q) (B n : nat) (pred target mask : Tensor),
        0 < c -> (0 < B)%nat -> (0 < n)%nat ->
        has_shape B n pred -> has_shape B n target -> has_shape B n mask ->
        uniform c mask ->
        exists loss,
          compute_loss None 0 "epsilon" [] pred target mask [] = Ok loss
          /\ loss == mse pred target).
Proof.
  intros H.
  destruct (H (1 # 2) 1%nat 1%nat Samples.pred1 Samples.target1
              Samples.half_mask1) as [loss [E Hl]].
  - reflexivity.
  - lia.
  - lia.
  - split; [reflexivity | repeat constructor].
  - split; [reflexivity | repeat constructor].
  - split; [reflexivity | repeat constructor].
  - repeat constructor.
  - vm_compute in E. injection E as <-. vm_compute in Hl. discriminate.
Qed.

(** *** The branch with SNR weights at an infinite cap *)

Lemma mult_by_ones (l ws : list Q) :
  List.length ws = List.length l -> Forall (fun w => w == 1) ws ->
  Forall2 Qeq (map2 Qmult l ws) l.
Proof.
  revert ws. induction l as [|a l IH]; intros [|w ws] Hl Hw; simpl in *;
    try discriminate; constructor.
  - inversion Hw as [|? ? Hw1 _]; subst. rewrite Hw1. ring.
  - inversion Hw; subst. apply IH; [lia | assumption].
Qed.

Lemma infinite_cap_weights (snr : list Q) :
  (0 < List.length snr)%nat -> Forall (fun s => ~ s == 0) snr ->
  let base_weight := map (fun s => clip Infinite s / s) snr in
  Forall (fun w => w == 1)
         (map (fun w => w / qmean base_weight) base_weight).
Proof.
  intros Hlen Hs base_weight.
  assert (Hb : Forall (fun w => w == 1) base_weight).
  { apply Forall_forall. intros w Hw. apply in_map_iff in Hw as [x [<- Hx]].
    rewrite Forall_forall in Hs. simpl. field. apply Hs. exact Hx. }
  assert (Hm : qmean base_weight == 1).
  { apply qmean_uniform; [unfold base_weight; rewrite length_map; exact Hlen
                         | exact Hb]. }
  apply Forall_forall. intros w Hw. apply in_map_iff in Hw as [x [<- Hx]].
  rewrite Forall_forall in Hb. rewrite (Hb x Hx), Hm. reflexivity.
Qed.

(** With [snr_gamma = +inf] every SNR weight is 1, and the branch returns the
    batch mean of the per-example masked errors: the division by the
    normalised mask means, which the other branch performs example by
    example, is here a division of the batch mean by 1. *)
Lemma loss_snr_infinite (prediction_type : string) (snr : list Q)
  (pred target mask : Tensor) :
  String.eqb prediction_type "v_prediction" = false ->
  (0 < List.length snr)%nat ->
  List.length snr = List.length (masked_sq_err pred target mask) ->
  Forall (fun s => ~ s == 0) snr ->
  ~ qmean (List.concat mask) == 0 ->
  loss_snr prediction_type Infinite snr pred target mask
  == qmean (map qmean (masked_sq_err pred target mask)).
Proof.
  intros Hpt Hlen Hsh Hs Hm. unfold loss_snr. rewrite Hpt.
  pose proof (infinite_cap_weights snr Hlen Hs) as Hw. simpl in Hw.
  rewrite (qmean_Forall2 _ _
             (mult_by_ones (map qmean (masked_sq_err pred target mask)) _
                (eq_trans (eq_trans (length_map _ _) (length_map _ _))
                   (eq_trans Hsh (eq_sym (length_map _ _)))) Hw)).
  field. exact Hm.
Qed.

(** C5 (evaluated on the code).  Two examples of one entry each, squared
    errors 1 and 0, masks 3/4 and 1/4: without SNR weights the loss is 1/4;
    with SNR weights and an infinite cap it is 3/8. *)
Theorem snr_infinite_cap_differs_from_unweighted :
  exists weighted unweighted,
    compute_loss (Some Infinite) 0 "epsilon" Samples.snr2 Samples.pred2
      Samples.target2 Samples.mask2 [] = Ok weighted
    /\ compute_loss None 0 "epsilon" Samples.snr2 Samples.pred2
         Samples.target2 Samples.mask2 [] = Ok unweighted
    /\ weighted == 3 # 8
    /\ unweighted == 1 # 4
    /\ ~ weighted == unweighted.
Proof.
  eexists. eexists.
  split; [reflexivity|]. split; [reflexivity|].
  split; [reflexivity|]. split; [reflexivity|].
  intros H. vm_compute in H. discriminate.
Qed.

(** Where all examples have the same mask, the two branches do agree at an
    infinite cap. *)
Lemma loss_snr_infinite_uniform (c : Q) (B n : nat) (snr : list Q)
  (pred target mask : Tensor) :
  0 < c -> (0 < B)%nat -> (0 < n)%nat ->
  has_shape B n pred -> has_shape B n target -> has_shape B n mask ->
  uniform c mask ->
  List.length snr = B -> Forall (fun s => ~ s == 0) snr ->
  loss_snr "epsilon" Infinite snr pred target mask
  == loss_plain pred target mask.
Proof.
  intros Hc HB Hn Sp St Sm Um Ls Hs.
  pose proof (sq_err_shape B n pred target Sp St) as [LE FE].
  pose proof Sm as [LM FM].
  assert (Hconcat : qmean (List.concat mask) == c).
  { rewrite <- (mean_of_row_means B n mask Sm).
    apply qmean_uniform; [rewrite length_map, LM; exact HB|].
    apply Forall_forall. intros v Hv. apply in_map_iff in Hv as [r [<- Hr]].
    apply qmean_uniform.
    - rewrite Forall_forall in FM. rewrite (FM r Hr). exact Hn.
    - unfold uniform in Um. rewrite Forall_forall in Um. apply Um. exact Hr. }
  rewrite loss_snr_infinite.
  - rewrite (loss_plain_uniform c B n pred target mask Hc HB Hn Sp St Sm Um).
    unfold masked_sq_err.
    assert (HR : Forall2 Qeq
                   (map qmean (map2 (map2 Qmult) (sq_err pred target) mask))
                   (map (fun e => c * qmean e) (sq_err pred target))).
    { clear - LE LM FE FM Um. subst B. revert mask LM FM Um.
      induction (sq_err pred target) as [|e errs IH]; intros [|m mask] LM FM Um;
        simpl in *; try discriminate; constructor.
      - inversion FE as [|? ? He _]; inversion FM as [|? ? Hm' _];
          inversion Um as [|? ? Um1 _]; subst.
        unfold qmean. rewrite map2_length by lia.
        rewrite (qsum_masked_row c e m) by (assumption || lia).
        unfold Qdiv. ring.
      - inversion FE; inversion FM; inversion Um; subst.
        apply IH; auto. }
    rewrite (qmean_Forall2 _ _ HR), (qmean_scale c qmean).
    unfold mse. rewrite <- (mean_of_row_means B n) by (split; assumption).
    reflexivity.
  - reflexivity.
  - lia.
  - unfold masked_sq_err. rewrite map2_length; lia.
  - exact Hs.
  - rewrite Hconcat. intros H0. rewrite H0 in Hc. discriminate.
Qed.

End LossFacts.

(** ** The training loop *)

Section TrainerFacts.

Import Trainer.


(** *** Set-up *)

Lemma runnable_fields cfg w :
  runnable cfg w = true ->
  String.eqb (optimizer_name cfg) "prodigy" = true
  /\ is_lora cfg = true
  /\ scale_lr_based_on_grad_acc cfg = false
  /\ 0 < gradient_accumulation_steps cfg
  /\ 0 < checkpointing_steps cfg
  /\ 0 < Z.of_nat (n_batches w)
  /\ String.eqb (prediction_type w) "epsilon" = true
  /\ check_loss cfg w = Ok tt.
Proof.
  unfold runnable. rewrite !andb_true_iff, negb_true_iff, !Z.ltb_lt.
  intros [H Hl]. repeat split; try tauto.
  unfold check_loss, has_adapter_parameters in *.
  destruct (Loss.positive (l1_penalty cfg)); [|reflexivity].
  destruct (unet_lora_parameters w); [discriminate | reflexivity].
Qed.

Lemma update_steps_positive cfg w :
  0 < gradient_accumulation_steps cfg -> 0 < Z.of_nat (n_batches w) ->
  0 < update_steps_per_epoch cfg w.
Proof.
  intros Hg Hn. unfold update_steps_per_epoch.
  assert (- Z.of_nat (n_batches w) / gradient_accumulation_steps cfg < 0).
  { apply Z.div_lt_upper_bound; lia. }
  lia.
Qed.

Lemma setup_runnable cfg w m :
  runnable cfg w = true -> max_train_steps cfg = Some m ->
  setup cfg w
  = Ok (Some (ti_optimizer0 cfg w), Some (prodigy0 cfg w), epochs cfg w m).
Proof.
  intros Hr Hm. destruct (runnable_fields cfg w Hr)
    as (Hname & Hl & Hs & Hg & Hcs & Hn & Hpt & _).
  pose proof (update_steps_positive cfg w Hg Hn) as Hu.
  unfold setup, build_optimizers. rewrite Hs, Hl, Hm. simpl.
  apply String.eqb_eq in Hname. rewrite Hname. simpl.
  unfold ceil_div.
  destruct (gradient_accumulation_steps cfg =? 0) eqn:E0;
    [apply Z.eqb_eq in E0; lia|].
  simpl. fold (update_steps_per_epoch cfg w).
  destruct (update_steps_per_epoch cfg w =? 0) eqn:E1;
    [apply Z.eqb_eq in E1; lia|].
  reflexivity.
Qed.



(** *** One iteration *)

Lemma pivot_or_decay_frame cfg w E epoch step st st1 :
  pivot_or_decay cfg w E epoch step st = Ok st1 ->
  global_step st1 = global_step st
  /\ last_save_step st1 = last_save_step st
  /\ optimizer_prod st1 = optimizer_prod st
  /\ ti_lrs st1 = ti_lrs st
  /\ lora_lrs st1 = lora_lrs st
  /\ checkpoints st1 = checkpoints st.
Proof.
  unfold pivot_or_decay.
  destruct (hard_pivot cfg).
  - destruct (E / 2 <=? epoch); [destruct (optimizer st)|];
      intros H; injection H as <-; simpl; tauto.
  - intros H. apply bind_ok in H as [o [_ H]]. injection H as <-.
    simpl. tauto.
Qed.

Lemma train_step_effect cfg w E epoch step st st1 p v :
  pivot_or_decay cfg w E epoch step st = Ok st1 ->
  String.eqb (prediction_type w) "epsilon" = true ->
  check_loss cfg w = Ok tt ->
  0 < gradient_accumulation_steps cfg ->
  0 < checkpointing_steps cfg ->
  optimizer_prod st = Some p ->
  Utils.get_avg_lr (fsqrt w)
    (Some (if boundary cfg w step then prodigy_step w p else p)) = Ok v ->
  train_step cfg w E epoch step st
  = Ok (mkState (global_step st + 1)
                (if global_step st mod checkpointing_steps cfg =? 0
                 then global_step st else last_save_step st)
                (optimizer st1)
                (Some (if boundary cfg w step then prodigy_step w p else p))
                (ti_lrs st ++ [recorded_ti (optimizer st1)])
                (lora_lrs st ++ [v])
                (checkpoints st
                 ++ (if global_step st mod checkpointing_steps cfg =? 0
                     then [global_step st] else []))
                (pivots st1) true).
Proof.
  intros Hpd Hpt Hloss Hg Hcs Hp Hv.
  destruct (pivot_or_decay_frame _ _ _ _ _ _ _ Hpd)
    as (Fg & Fl & Fp & Ft & Flo & Fc).
  unfold train_step. rewrite Hpd. cbn [bind]. cbv zeta.
  unfold check_prediction_type. rewrite Hpt. cbn [bind].
  rewrite Hloss. cbn [bind].
  unfold optimizer_steps, periodic_checkpoint, track_lrs.
  destruct (gradient_accumulation_steps cfg =? 0) eqn:E0;
    [apply Z.eqb_eq in E0; lia|].
  destruct (checkpointing_steps cfg =? 0) eqn:E1;
    [apply Z.eqb_eq in E1; lia|].
  destruct st1 as [gs1 ls1 o1 p1 t1 l1 c1 pv1 tb1].
  simpl in Fg, Fl, Fp, Ft, Flo, Fc.
  subst gs1 ls1 p1 t1 l1 c1. rewrite Hp in *.
  unfold with_optimizer_prod, record_lrs, save_checkpoint, advance,
    bind_target_size.
  destruct (boundary cfg w step);
    cbn [bind option_map optimizer_prod optimizer
           global_step last_save_step ti_lrs lora_lrs checkpoints pivots];
    rewrite Hv;
    cbn [bind global_step last_save_step optimizer optimizer_prod
           ti_lrs lora_lrs checkpoints pivots];
    destruct (global_step st mod checkpointing_steps cfg =? 0);
    cbn [bind global_step last_save_step optimizer
           optimizer_prod ti_lrs lora_lrs checkpoints pivots];
    rewrite ?app_nil_r; reflexivity.
Qed.



(** *** Arithmetic of the checkpoint steps *)







(** *** The invariant of the loop *)





Lemma decay_branch cfg w E epoch step st :
  hard_pivot cfg = false ->
  decay_view st ->
  exists st1,
    pivot_or_decay cfg w E epoch step st = Ok st1
    /\ decay_view st1
    /\ first_group_lr (optimizer st1) = Ok (decayed_lr cfg w E epoch step).
Proof.
  intros Hhp (o & g & gs & Ho & Hg).
  unfold pivot_or_decay, write_first_group_lr. rewrite Hhp, Ho, Hg.
  eexists. split; [reflexivity|]. split.
  - eexists. eexists. eexists. simpl. split; reflexivity.
  - reflexivity.
Qed.













(** With [max_train_steps <= 0] the loop body never runs: nothing is
    saved before the final save, which writes [checkpoint-0] and then reads
    the unbound [target_size]. *)
Lemma run_without_iterations_raises cfg w m :
  runnable cfg w = true ->
  max_train_steps cfg = Some m ->
  m <= 0 ->
  train cfg w = Raise UnboundLocalError.
Proof.
  intros Hr Hm Hle.
  destruct (runnable_fields cfg w Hr) as (_ & _ & _ & Hg & _ & Hn & _).
  pose proof (update_steps_positive cfg w Hg Hn) as Hu.
  assert (HE : epochs cfg w m <= 0).
  { unfold epochs.
    pose proof (Z.div_mod (- m) (update_steps_per_epoch cfg w) ltac:(lia)).
    pose proof (Z.mod_pos_bound (- m) (update_steps_per_epoch cfg w) Hu).
    nia. }
  unfold train. rewrite (setup_runnable cfg w m Hr Hm). cbn [bind].
  unfold train_loop. replace (Z.to_nat (epochs cfg w m)) with O by lia.
  reflexivity.
Qed.

(** *** The final save and the claims on whole runs *)

(** An iteration that completes had a Prodigy handle to query: with
    [optimizer_prod = None] the iteration raises. *)
Lemma step_needs_prodigy_handle cfg w E epoch step st st' :
  train_step cfg w E epoch step st = Ok st' -> optimizer_prod st <> None.
Proof.
  unfold train_step. intros H Hnone.
  apply bind_ok in H as [st1 [H1 H]].
  apply bind_ok in H as [u [_ H]].
  apply bind_ok in H as [u' [_ H]].
  apply bind_ok in H as [st2 [H2 H]].
  apply bind_ok in H as [st3 [H3 _]].
  destruct (pivot_or_decay_frame _ _ _ _ _ _ _ H1) as (_ & _ & F1 & _).
  assert (F2 : optimizer_prod st2 = None).
  { unfold optimizer_steps in H2.
    destruct (gradient_accumulation_steps cfg =? 0); [discriminate|].
    destruct (boundary cfg w step); injection H2 as <-; simpl;
      rewrite F1, Hnone; reflexivity. }
  unfold track_lrs in H3. rewrite F2 in H3. discriminate H3.
Qed.








(** C6.  Once the epoch has reached [num_train_epochs // 2], a first step
    on a live handle pivots (the handle becomes [None], the pivot block runs
    once) and records 0 as the textual-inversion rate; a second step at any
    later position raises nothing, does not run the pivot block again and
    records 0 too. *)
Theorem pivot_is_idempotent cfg w E e1 s1 e2 s2 st o p :
  hard_pivot cfg = true ->
  String.eqb (prediction_type w) "epsilon" = true ->
  check_loss cfg w = Ok tt ->
  0 < gradient_accumulation_steps cfg ->
  0 < checkpointing_steps cfg ->
  E / 2 <= e1 -> E / 2 <= e2 ->
  optimizer st = Some o ->
  optimizer_prod st = Some p ->
  prodigy_reports w p ->
  exists st1 st2,
    train_step cfg w E e1 s1 st = Ok st1
    /\ train_step cfg w E e2 s2 st1 = Ok st2
    /\ optimizer st1 = None /\ pivots st1 = pivots st + 1
    /\ optimizer st2 = None /\ pivots st2 = pivots st1
    /\ ti_lrs st1 = ti_lrs st ++ [0%Q]
    /\ ti_lrs st2 = ti_lrs st1 ++ [0%Q].
Proof.
  intros Hhp Hpt Hloss Hg Hcs H1 H2 Ho Hp Hrep.
  assert (Hq : forall j, exists v,
               Utils.get_avg_lr (fsqrt w)
                 (Some (Nat.iter j (prodigy_step w) p)) = Ok v).
  { intros j. specialize (Hrep j). unfold lr_query_ok in Hrep.
    destruct (Utils.get_avg_lr (fsqrt w)
                (Some (Nat.iter j (prodigy_step w) p))) as [v|e];
      [exists v; reflexivity | discriminate]. }
  assert (Hpd1 : pivot_or_decay cfg w E e1 s1 st
                 = Ok (with_pivots (with_optimizer st None) (pivots st + 1))).
  { unfold pivot_or_decay. rewrite Hhp, Ho.
    destruct (E / 2 <=? e1) eqn:E1; [reflexivity | apply Z.leb_gt in E1; lia]. }
  set (j1 := if boundary cfg w s1 then 1%nat else 0%nat).
  destruct (Hq j1) as [v1 Hv1].
  assert (Hb1 : (if boundary cfg w s1 then prodigy_step w p else p)
                = Nat.iter j1 (prodigy_step w) p)
    by (unfold j1; destruct (boundary cfg w s1); reflexivity).
  pose proof (train_step_effect cfg w E e1 s1 st _ p v1 Hpd1 Hpt Hloss Hg Hcs Hp
                ltac:(rewrite Hb1; exact Hv1)) as Et1.
  cbn [optimizer pivots with_pivots with_optimizer] in Et1.
  match type of Et1 with _ = Ok ?s => set (st1 := s) in * end.
  assert (Hpd2 : pivot_or_decay cfg w E e2 s2 st1 = Ok st1).
  { unfold pivot_or_decay. rewrite Hhp.
    destruct (E / 2 <=? e2) eqn:E2; [reflexivity | apply Z.leb_gt in E2; lia]. }
  set (j2 := if boundary cfg w s2 then S j1 else j1).
  destruct (Hq j2) as [v2 Hv2].
  assert (Hb2 : (if boundary cfg w s2
                 then prodigy_step w (Nat.iter j1 (prodigy_step w) p)
                 else Nat.iter j1 (prodigy_step w) p)
                = Nat.iter j2 (prodigy_step w) p)
    by (unfold j2; destruct (boundary cfg w s2); reflexivity).
  assert (Hp1 : optimizer_prod st1 = Some (Nat.iter j1 (prodigy_step w) p))
    by (unfold st1; cbn [optimizer_prod]; rewrite Hb1; reflexivity).
  pose proof (train_step_effect cfg w E e2 s2 st1 st1 _ v2 Hpd2 Hpt Hloss Hg Hcs
                Hp1
                ltac:(rewrite Hb2; exact Hv2)) as Et2.
  exists st1. eexists.
  split; [exact Et1|]. split; [exact Et2|].
  unfold st1. cbn [optimizer pivots ti_lrs]. repeat split.
Qed.

(** *** The analytic schedule *)

Lemma schedule_monotone (base f1 f2 : Q) :
  (0 <= base)%Q -> (f1 <= f2)%Q -> (f2 <= 1)%Q ->
  (Schedule.lr base f2 <= Schedule.lr base f1)%Q.
Proof.
  intros Hb H12 H2. unfold Schedule.lr. simpl.
  rewrite !(Qmult_comm base).
  apply Qmult_le_compat_r; [|exact Hb].
  apply Qmult_le_compat_nonneg; split; lra.
Qed.

Lemma completion_fraction_range (epoch step : Z) (n : nat) (E : Z) :
  0 <= epoch < E -> 0 <= step < Z.of_nat n ->
  (0 <= Schedule.completion_fraction epoch step n E)%Q
  /\ (Schedule.completion_fraction epoch step n E < 1)%Q.
Proof.
  intros He Hs. unfold Schedule.completion_fraction.
  assert (HE : (0 < inject_Z E)%Q) by (unfold Qlt; simpl; lia).
  assert (Hn : (0 < inject_Z (Z.of_nat n))%Q) by (unfold Qlt; simpl; lia).
  assert (H1 : (0 <= inject_Z epoch)%Q) by (unfold Qle; simpl; lia).
  assert (H2 : (0 <= inject_Z step)%Q) by (unfold Qle; simpl; lia).
  assert (H3 : (inject_Z epoch + 1 <= inject_Z E)%Q)
    by (unfold Qle; simpl; lia).
  assert (H4 : (inject_Z step < inject_Z (Z.of_nat n))%Q)
    by (rewrite <- Zlt_Qlt; lia).
  assert (H5 : (0 <= inject_Z step / inject_Z (Z.of_nat n))%Q)
    by (apply Qle_shift_div_l; [exact Hn | lra]).
  assert (H6 : (inject_Z step / inject_Z (Z.of_nat n) < 1)%Q)
    by (apply Qlt_shift_div_r; [exact Hn | lra]).
  split.
  - apply Qle_shift_div_l; [exact HE | lra].
  - apply Qlt_shift_div_r; [exact HE | lra].
Qed.

(** C4.  Without [hard_pivot], at every position [(epoch, step)] of the
    loop the completion fraction [f] is in [0, 1) and the rate written to the
    optimizer is [base_lr * (1 - f)^2]; that rate does not increase when [f]
    grows up to 1 (for a non-negative [base_lr]) and is 0 at [f = 1]. *)
Theorem ti_lr_follows_quadratic_decay cfg w E epoch step st o g gs :
  hard_pivot cfg = false ->
  optimizer st = Some o ->
  param_groups o = Some (g :: gs) ->
  (0 <= textual_inversion_lr cfg)%Q ->
  0 <= epoch < E ->
  0 <= step < Z.of_nat (n_batches w) ->
  let base_lr := textual_inversion_lr cfg in
  let f := Schedule.completion_fraction epoch step (n_batches w) E in
  (0 <= f)%Q /\ (f < 1)%Q
  /\ (exists st1 v,
         pivot_or_decay cfg w E epoch step st = Ok st1
         /\ first_group_lr (optimizer st1) = Ok v
         /\ recorded_ti (optimizer st1) = v
         /\ (v == Schedule.lr base_lr f)%Q)
  /\ (forall f1 f2 : Q,
         (f1 <= f2)%Q -> (f2 <= 1)%Q ->
         (Schedule.lr base_lr f2 <= Schedule.lr base_lr f1)%Q)
  /\ (Schedule.lr base_lr 1 == 0)%Q.
Proof.
  intros Hhp Ho Hg Hb He Hs base_lr f.
  destruct (completion_fraction_range epoch step (n_batches w) E He Hs)
    as [F0 F1].
  split; [exact F0|]. split; [exact F1|]. split; [|split].
  - destruct (decay_branch cfg w E epoch step st Hhp) as (st1 & E1 & _ & Hl).
    { exists o, g, gs. split; assumption. }
    exists st1, (decayed_lr cfg w E epoch step).
    split; [exact E1|]. split; [exact Hl|].
    split; [unfold recorded_ti; rewrite Hl; reflexivity|].
    reflexivity.
  - intros f1 f2 H12 H2. apply schedule_monotone; assumption.
  - unfold Schedule.lr. simpl. ring.
Qed.

(** *** The sample worlds can always be queried *)

Lemma beta1_power_below_one (i : nat) :
  (0 < (9 # 10) ^ (Z.of_nat i + 1))%Q /\ ((9 # 10) ^ (Z.of_nat i + 1) < 1)%Q.
Proof.
  induction i as [|i [IH0 IH1]].
  - split; reflexivity.
  - replace (Z.of_nat (S i) + 1) with ((Z.of_nat i + 1) + 1) by lia.
    rewrite Qpower_plus by discriminate.
    change ((9 # 10) ^ 1)%Q with (9 # 10)%Q.
    split.
    + apply Qmult_lt_0_compat; [exact IH0 | reflexivity].
    + apply Qlt_trans with (1 * (9 # 10))%Q; [|reflexivity].
      apply Qmult_lt_r; [reflexivity | exact IH1].
Qed.

Lemma bump_k_iter cfg w (i : nat) :
  Nat.iter i Samples.bump_k (prodigy0 cfg w)
  = Samples.prodigy_at cfg w (Z.of_nat i).
Proof.
  induction i as [|i IH]; [reflexivity|].
  rewrite Nat.iter_succ, IH. unfold Samples.bump_k, Samples.prodigy_at.
  cbn [algo param_groups option_map map params lr weight_decay betas d k
         use_bias_correction d_coef].
  rewrite Nat2Z.inj_succ. unfold Z.succ. rewrite (Z.add_comm 1).
  reflexivity.
Qed.

Lemma world_reports cfg (n : nat) :
  prodigy_reports (Samples.world n) (prodigy0 cfg (Samples.world n)).
Proof.
  intros i. cbn [prodigy_step Samples.world]. rewrite bump_k_iter.
  unfold lr_query_ok, Utils.get_avg_lr, Utils.get_avg_lr_try,
    Samples.prodigy_at.
  cbn [param_groups Utils.group_loop Utils.group_step key bind d lr
         use_bias_correction betas k params].
  destruct (beta1_power_below_one i) as [H0 H1].
  destruct (Qeq_bool (1 - (9 # 10) ^ (Z.of_nat i + 1)) 0) eqn:Eq.
  - apply Qeq_bool_iff in Eq. lra.
  - cbn [bind].
    destruct (0 + Utils.num_params (unet_lora_parameters (Samples.world n))
              =? 0);
      reflexivity.
Qed.

(** *** The claims at sample inputs *)





Lemma ti_lr_follows_quadratic_decay_witness :
  exists st1 v,
    pivot_or_decay (Samples.trainer_config "prodigy" false 4 1 500)
      (Samples.world 2) 2 1 1
      (initial_state
         (Some (ti_optimizer0 (Samples.trainer_config "prodigy" false 4 1 500)
                  (Samples.world 2)))
         None) = Ok st1
    /\ first_group_lr (optimizer st1) = Ok v
    /\ recorded_ti (optimizer st1) = v
    /\ (v == Schedule.lr (1 # 1000) (3 # 4))%Q.
Proof.
  destruct (ti_lr_follows_quadratic_decay
              (Samples.trainer_config "prodigy" false 4 1 500)
              (Samples.world 2) 2 1 1
              (initial_state
                 (Some (ti_optimizer0
                          (Samples.trainer_config "prodigy" false 4 1 500)
                          (Samples.world 2)))
                 None)
              _ _ _ eq_refl eq_refl eq_refl)
    as (_ & _ & (st1 & v & E & Hv & Hr & Hs) & _).
  - unfold Qle. simpl. lia.
  - lia.
  - simpl. lia.
  - exists st1, v.
    split; [exact E|]. split; [exact Hv|]. split; [exact Hr|].
    rewrite Hs. reflexivity.
Defined.

Lemma pivot_is_idempotent_witness :
  exists st1 st2,
    train_step (Samples.trainer_config "prodigy" true 20 1 500)
      (Samples.world 2) 10 5 0
      (initial_state
         (Some (ti_optimizer0 (Samples.trainer_config "prodigy" true 20 1 500)
                  (Samples.world 2)))
         (Some (prodigy0 (Samples.trainer_config "prodigy" true 20 1 500)
                  (Samples.world 2)))) = Ok st1
    /\ train_step (Samples.trainer_config "prodigy" true 20 1 500)
         (Samples.world 2) 10 5 1 st1 = Ok st2
    /\ optimizer st1 = None /\ pivots st1 = 1
    /\ optimizer st2 = None /\ pivots st2 = 1
    /\ ti_lrs st2 = [0%Q; 0%Q].
Proof.
  destruct (pivot_is_idempotent
              (Samples.trainer_config "prodigy" true 20 1 500)
              (Samples.world 2) 10 5 0 5 1
              (initial_state
                 (Some (ti_optimizer0
                          (Samples.trainer_config "prodigy" true 20 1 500)
                          (Samples.world 2)))
                 (Some (prodigy0
                          (Samples.trainer_config "prodigy" true 20 1 500)
                          (Samples.world 2))))
              (ti_optimizer0 (Samples.trainer_config "prodigy" true 20 1 500)
                 (Samples.world 2))
              (prodigy0 (Samples.trainer_config "prodigy" true 20 1 500)
                 (Samples.world 2))
              eq_refl eq_refl eq_refl)
    as (st1 & st2 & E1 & E2 & Ho1 & Hp1 & Ho2 & Hp2 & Ht1 & Ht2).
  - reflexivity.
  - reflexivity.
  - vm_compute. discriminate.
  - vm_compute. discriminate.
  - reflexivity.
  - reflexivity.
  - apply world_reports.
  - exists st1, st2.
    split; [exact E1|]. split; [exact E2|]. split; [exact Ho1|].
    split; [exact Hp1|]. split; [exact Ho2|].
    split; [rewrite Hp2; exact Hp1|].
    rewrite Ht2, Ht1. reflexivity.
Defined.



(** C7 in the loop: with [optimizer_name = "adamw"] the handle
    [optimizer_prod] is [None], and the first iteration raises where it
    queries the effective rate. *)
Lemma adamw_run_raises_at_first_step :
  train (Samples.trainer_config "adamw" false 1000 1 500) (Samples.world 10)
  = Raise AttributeError.
Proof. vm_compute. reflexivity. Qed.

(** An optimizer name that no branch of the loop's own dispatch knows
    stops the set-up at the first use of the unbound name. *)
Lemma unknown_name_stops_setup :
  train (Samples.trainer_config "sgd" false 1000 1 500) (Samples.world 10)
  = Raise UnboundLocalError.
Proof. reflexivity. Qed.

End TrainerFacts.

(** * Further properties *)

(** ** The effective-rate query on arbitrary optimizers *)

Section QueryFacts.

Variable fsqrt : Q -> Q.

Lemma group_loop_raises (groups : list Group) (bad : Group) :
  In bad groups ->
  (forall tl tp, is_ok (Utils.group_step fsqrt bad tl tp) = false) ->
  forall tl tp, is_ok (Utils.group_loop fsqrt groups tl tp) = false.
Proof.
  intros Hin Hbad. induction groups as [|g groups IH]; [contradiction|].
  intros tl tp. simpl.
  destruct Hin as [-> | Hin].
  - specialize (Hbad tl tp).
    destruct (Utils.group_step fsqrt bad tl tp); [discriminate | reflexivity].
  - destruct (Utils.group_step fsqrt g tl tp) as [[tl' tp']|e];
      [apply IH; exact Hin | reflexivity].
Qed.

(** X1.  [get_avg_lr] raises exactly on a null handle and on a handle whose
    [param_groups] is [None]; on every optimizer that has a list of groups
    (even an empty one, even one without Prodigy's keys) it returns a
    value. *)
Theorem get_avg_lr_raises_iff (optimizer : option Optimizer) :
  is_ok (Utils.get_avg_lr fsqrt optimizer) = false
  <-> optimizer = None
      \/ exists a, optimizer = Some (mkOptimizer a None).
Proof.
  split.
  - destruct optimizer as [[a [groups|]]|]; intros H.
    + exfalso. unfold Utils.get_avg_lr, Utils.get_avg_lr_try in H.
      cbn [param_groups] in H.
      destruct (Utils.group_loop fsqrt groups 0%Q 0) as [[tl tp]|e] eqn:E.
      * cbn [bind] in H. destruct (tp =? 0); discriminate H.
      * cbn [bind] in H. destruct groups as [|g groups].
        -- simpl in E. discriminate E.
        -- simpl in H. discriminate H.
    + right. exists a. reflexivity.
    + left. reflexivity.
  - intros [-> | [a ->]]; reflexivity.
Qed.

(** X2.  As soon as one group lacks the key ['d'] (any optimizer that is
    not a Prodigy), the answer is the nominal rate of the first group,
    whatever the other groups hold. *)
Theorem get_avg_lr_without_d (a : Algo) (g : Group) (gs : list Group)
  (bad : Group) :
  In bad (g :: gs) -> d bad = None ->
  Utils.get_avg_lr fsqrt (Some (mkOptimizer a (Some (g :: gs)))) = Ok (lr g).
Proof.
  intros Hin Hd.
  assert (Hbad : forall tl tp,
             is_ok (Utils.group_step fsqrt bad tl tp) = false).
  { intros tl tp. unfold Utils.group_step. rewrite Hd. reflexivity. }
  pose proof (group_loop_raises (g :: gs) bad Hin Hbad 0%Q 0) as Hl.
  unfold Utils.get_avg_lr, Utils.get_avg_lr_try. cbn [param_groups].
  destruct (Utils.group_loop fsqrt (g :: gs) 0%Q 0) as [[tl tp]|e];
    [discriminate Hl | reflexivity].
Qed.

(** X3.  On a Prodigy optimizer with one group the answer does not depend
    on how many parameters the group has: it is [d * lr * bias_correction]
    when some parameter is trainable, and 0 when none is. *)
Theorem get_avg_lr_single_group (a : Algo) (g : Group) (dv b1 b2 : Q)
  (kv : Z) (ubc : bool) :
  d g = Some dv ->
  use_bias_correction g = Some ubc ->
  betas g = Some (b1, b2) ->
  k g = Some kv ->
  ~ (1 - b1 ^ (kv + 1) == 0)%Q ->
  exists v,
    Utils.get_avg_lr fsqrt (Some (mkOptimizer a (Some [g]))) = Ok v
    /\ (Utils.num_params (params g) = 0 -> v = 0%Q)
    /\ (Utils.num_params (params g) <> 0 ->
        (v == dv * lr g
              * (if ubc then fsqrt (1 - b2 ^ (kv + 1)) / (1 - b1 ^ (kv + 1))
                 else 1))%Q).
Proof.
  intros Hd Hu Hb Hk Hden.
  assert (Eq : Qeq_bool (1 - b1 ^ (kv + 1)) 0 = false).
  { destruct (Qeq_bool (1 - b1 ^ (kv + 1)) 0) eqn:E; [|reflexivity].
    apply Qeq_bool_iff in E. contradiction. }
  unfold Utils.get_avg_lr, Utils.get_avg_lr_try. cbn [param_groups].
  unfold Utils.group_loop, Utils.group_step.
  rewrite Hd, Hu, Hb, Hk. cbn [key bind].
  set (n := Utils.num_params (params g)).
  assert (Hq : forall x : Q,
             n <> 0 ->
             ((0 + dv * lr g * x * inject_Z n) / inject_Z (0 + n)
              == dv * lr g * x)%Q).
  { intros x Hn. replace (0 + n) with n by ring. field.
    intros H0. apply Hn. unfold Qeq in H0. simpl in H0. lia. }
  destruct ubc; rewrite ?Eq; cbn [bind];
    (destruct (0 + n =? 0) eqn:En;
     [ apply Z.eqb_eq in En; exists 0%Q;
       split; [reflexivity|]; split; [reflexivity|]; intros H; lia
     | apply Z.eqb_neq in En; eexists;
       split; [reflexivity|]; split; [intros H; lia|];
       intros H; apply Hq; exact H ]).
Qed.

End QueryFacts.

Lemma get_avg_lr_without_d_witness :
  Utils.get_avg_lr (fun q => q)
    (Some (Optim.new_adamw [Optim.mkSpec [mkParam 8 true] (Some (3 # 1000)%Q)
                              None]
             (1 # 1000) 0))
  = Ok (3 # 1000)%Q.
Proof.
  apply (get_avg_lr_without_d (fun q => q) AdamW
           (mkGroup [mkParam 8 true] (3 # 1000) 0
                    (Some (9 # 10, 999 # 1000)%Q) None None None None)
           []
           (mkGroup [mkParam 8 true] (3 # 1000) 0
                    (Some (9 # 10, 999 # 1000)%Q) None None None None)).
  - left. reflexivity.
  - reflexivity.
Defined.

Lemma get_avg_lr_single_group_witness :
  exists v,
    Utils.get_avg_lr (fun q => q)
      (Some (Samples.prodigy_at (Samples.trainer_config "prodigy" false 10 1 5)
               (Samples.world 2) 0)) = Ok v
    /\ (v == (1 # 1000000) * 1 * ((1 - (99 # 100)) / (1 - (9 # 10))))%Q.
Proof.
  destruct (get_avg_lr_single_group (fun q => q) Prodigy
              (mkGroup [mkParam 1024 true] 1 (2 # 1000)
                       (Some (9 # 10, 99 # 100)%Q) (Some Optim.prodigy_d0)
                       (Some 0) (Some true) (Some (33 # 100)%Q))
              Optim.prodigy_d0 (9 # 10) (99 # 100) 0 true
              eq_refl eq_refl eq_refl eq_refl)
    as [v [E [_ H]]].
  - intros H. vm_compute in H. discriminate H.
  - exists v. split; [exact E|]. rewrite H.
    + vm_compute. reflexivity.
    + vm_compute. discriminate.
Defined.

(** ** Picking a GPU *)

Section GpuFacts.

Import Gpu.

Lemma argmax_from_spec (l p : list Z) (best_i : nat) (best : Z) :
  (best_i < List.length p)%nat ->
  nth best_i p 0 = best ->
  (forall j, (j < List.length p)%nat -> nth j p 0 <= best) ->
  (forall j, (j < best_i)%nat -> nth j p 0 < best) ->
  let r := argmax_from best_i best (List.length p) l in
  (r < List.length (p ++ l))%nat
  /\ (forall j, (j < List.length (p ++ l))%nat ->
                nth j (p ++ l) 0 <= nth r (p ++ l) 0)
  /\ (forall j, (j < r)%nat -> nth j (p ++ l) 0 < nth r (p ++ l) 0).
Proof.
  revert p best_i best.
  induction l as [|x l IH]; intros p best_i best Hi Hb Hle Hlt.
  - simpl. rewrite app_nil_r, Hb. auto.
  - cbn [argmax_from].
    assert (Hp : List.length (p ++ [x]) = S (List.length p))
      by (rewrite length_app; simpl; lia).
    replace (p ++ x :: l) with ((p ++ [x]) ++ l)
      by (rewrite <- app_assoc; reflexivity).
    destruct (best <? x) eqn:E.
    + apply Z.ltb_lt in E. rewrite <- Hp.
      apply IH.
      * lia.
      * rewrite app_nth2 by lia. rewrite Nat.sub_diag. reflexivity.
      * intros j Hj. rewrite Hp in Hj.
        destruct (Nat.eq_dec j (List.length p)) as [-> | Hne].
        -- rewrite app_nth2 by lia. rewrite Nat.sub_diag. simpl. lia.
        -- rewrite app_nth1 by lia. specialize (Hle j ltac:(lia)). lia.
      * intros j Hj. rewrite app_nth1 by lia.
        specialize (Hle j Hj). lia.
    + apply Z.ltb_ge in E. rewrite <- Hp.
      apply IH.
      * lia.
      * rewrite app_nth1 by lia. exact Hb.
      * intros j Hj. rewrite Hp in Hj.
        destruct (Nat.eq_dec j (List.length p)) as [-> | Hne].
        -- rewrite app_nth2 by lia. rewrite Nat.sub_diag. simpl. lia.
        -- rewrite app_nth1 by lia. apply Hle. lia.
      * intros j Hj. rewrite app_nth1 by lia. apply Hlt. exact Hj.
Qed.

Lemma argmax_spec (l : list Z) :
  l <> [] ->
  (argmax l < List.length l)%nat
  /\ (forall j, (j < List.length l)%nat -> nth j l 0 <= nth (argmax l) l 0)
  /\ (forall j, (j < argmax l)%nat -> nth j l 0 < nth (argmax l) l 0).
Proof.
  destruct l as [|x l]; [congruence|]. intros _.
  apply (argmax_from_spec l [x] O x).
  - simpl. lia.
  - reflexivity.
  - intros j Hj. simpl in Hj. replace j with O by lia. simpl. lia.
  - intros j Hj. lia.
Qed.

Lemma read_free_spec (c : Cuda) (n lo : nat) (gpu_mem : list Z) :
  read_free c (seq lo n) = Some gpu_mem ->
  List.length gpu_mem = n
  /\ forall i, (i < n)%nat ->
               mem_get_info c (lo + i) = Some (nth i gpu_mem 0).
Proof.
  revert lo gpu_mem. induction n as [|n IH]; intros lo gpu_mem H.
  - simpl in H. injection H as <-. split; [reflexivity | intros i Hi; lia].
  - simpl in H.
    destruct (mem_get_info c lo) as [m|] eqn:Em; [|discriminate].
    destruct (read_free c (seq (S lo) n)) as [ms|] eqn:Er; [|discriminate].
    injection H as <-. destruct (IH (S lo) ms Er) as [Hl Hn].
    split; [simpl; lia|].
    intros [|i] Hi.
    + rewrite Nat.add_0_r. exact Em.
    + simpl. replace (lo + S i)%nat with (S lo + i)%nat by lia.
      apply Hn. lia.
Qed.

Lemma read_free_total (c : Cuda) (n lo : nat) :
  (forall i, (i < n)%nat -> mem_get_info c (lo + i) <> None) ->
  read_free c (seq lo n) <> None.
Proof.
  revert lo. induction n as [|n IH]; intros lo H; simpl; [discriminate|].
  destruct (mem_get_info c lo) as [m|] eqn:Em.
  - destruct (read_free c (seq (S lo) n)) eqn:Er; [discriminate|].
    exfalso. apply (IH (S lo)); [|exact Er].
    intros i Hi. replace (S lo + i)%nat with (lo + S i)%nat by lia.
    apply H. lia.
  - exfalso. apply (H O); [lia|]. rewrite Nat.add_0_r. exact Em.
Qed.

Lemma read_free_fails (c : Cuda) (n lo i : nat) :
  (i < n)%nat -> mem_get_info c (lo + i) = None ->
  read_free c (seq lo n) = None.
Proof.
  intros Hi Hnone.
  destruct (read_free c (seq lo n)) as [ms|] eqn:E; [|reflexivity].
  destruct (read_free_spec c n lo ms E) as [_ H].
  rewrite (H i Hi) in Hnone. discriminate.
Qed.

(** X4.  When every query answers and there is at least one device, the
    function returns the device with the most free memory, the first such
    device when several tie, and leaves its number in
    [CUDA_VISIBLE_DEVICES]. *)
Theorem pick_best_gpu_id_is_first_maximum (c : Cuda) (n : nat) :
  device_count c = Some n ->
  (0 < n)%nat ->
  (forall i, (i < n)%nat -> mem_get_info c i <> None) ->
  exists (best : nat) (free_best : Z),
    pick_best_gpu_id c
    = (Some (Z.of_nat best), Config.str_int (Z.of_nat best))
    /\ (best < n)%nat
    /\ mem_get_info c best = Some free_best
    /\ (forall i free_i, (i < n)%nat -> mem_get_info c i = Some free_i ->
                         free_i <= free_best)
    /\ (forall i free_i, (i < best)%nat -> mem_get_info c i = Some free_i ->
                         free_i < free_best).
Proof.
  intros Hc Hn Hall. unfold pick_best_gpu_id. rewrite Hc.
  destruct (read_free c (seq 0 n)) as [gpu_mem|] eqn:Er.
  2:{ exfalso. apply (read_free_total c n 0); [|exact Er].
      intros i Hi. apply Hall. exact Hi. }
  destruct (read_free_spec c n 0 gpu_mem Er) as [Hl Hget].
  simpl in Hget.
  assert (Hne : gpu_mem <> [])
    by (destruct gpu_mem; simpl in Hl; [lia | discriminate]).
  destruct (argmax_spec gpu_mem Hne) as (Hr & Hmax & Hfirst).
  rewrite length_seq.
  destruct (Nat.eqb n 0) eqn:E0; [apply Nat.eqb_eq in E0; lia|].
  rewrite Hl in Hr, Hmax.
  rewrite seq_nth by exact Hr. simpl.
  exists (argmax gpu_mem), (nth (argmax gpu_mem) gpu_mem 0).
  split; [reflexivity|]. split; [exact Hr|].
  split; [apply (Hget _ Hr)|]. split.
  - intros i free_i Hi Hm. rewrite (Hget i Hi) in Hm. injection Hm as <-.
    apply Hmax. exact Hi.
  - intros i free_i Hi Hm. rewrite (Hget i ltac:(lia)) in Hm.
    injection Hm as <-. apply Hfirst. exact Hi.
Qed.

(** X5.  The edge cases: with no device the function returns [None] and
    empties [CUDA_VISIBLE_DEVICES]; when counting the devices or any memory
    query raises, it answers device 0 and sets the variable to "0", whether
    or not a device 0 exists. *)
Theorem pick_best_gpu_id_edges (c : Cuda) :
  (device_count c = Some O -> pick_best_gpu_id c = (None, EmptyString))
  /\ (device_count c = None -> pick_best_gpu_id c = (Some 0, "0"%string))
  /\ (forall n i, device_count c = Some n -> (i < n)%nat ->
                  mem_get_info c i = None ->
                  pick_best_gpu_id c = (Some 0, "0"%string)).
Proof.
  unfold pick_best_gpu_id. repeat split.
  - intros ->. reflexivity.
  - intros ->. reflexivity.
  - intros n i -> Hi Hnone. rewrite (read_free_fails c n 0 i Hi Hnone).
    reflexivity.
Qed.

(** X6.  A configuration constructed on a machine without any GPU gets the
    device string "cuda:None"; on a machine whose CUDA queries raise it gets
    "cuda:0".  The device is never a CPU device. *)
Theorem config_device_without_gpu (env : Config.InitEnv) (c : Cuda)
  (data : Config.TrainingConfig) :
  (device_count c = Some O ->
   Config.device (Config.init (env_on env c) data) = "cuda:None"%string)
  /\ (device_count c = None ->
      Config.device (Config.init (env_on env c) data) = "cuda:0"%string)
  /\ String.prefix "cuda:" (Config.device (Config.init (env_on env c) data))
     = true.
Proof.
  unfold Config.init, env_on. cbn [Config.device Config.gpu_id].
  repeat split.
  - intros Hc. unfold pick_best_gpu_id. rewrite Hc. reflexivity.
  - intros Hc. unfold pick_best_gpu_id. rewrite Hc. reflexivity.
  - destruct (fst (pick_best_gpu_id c)) as [z|]; [|reflexivity].
    simpl. destruct (Config.str_int z); reflexivity.
Qed.

End GpuFacts.

Lemma pick_best_gpu_id_is_first_maximum_witness :
  Gpu.pick_best_gpu_id MoreSamples.two_gpus = (Some 1, "1"%string).
Proof.
  destruct (pick_best_gpu_id_is_first_maximum MoreSamples.two_gpus 2 eq_refl)
    as (best & free_best & E & Hb & Hm & Hmax & Hfirst).
  - lia.
  - intros i Hi. simpl. discriminate.
  - rewrite E.
    assert (best = 1%nat).
    { destruct best as [|[|b]]; [|reflexivity|lia].
      exfalso. simpl in Hm. injection Hm as <-.
      specialize (Hmax 1%nat 9000 ltac:(lia) eq_refl). lia. }
    subst best. reflexivity.
Defined.

(** ** Saving and reloading a configuration *)

Section ConfigFacts.

Import Config.

Lemma append_nonempty (a b : string) :
  b <> EmptyString -> String.eqb (a ++ b) EmptyString = false.
Proof.
  intros Hb. destruct a as [|c a]; simpl.
  - destruct b; [congruence | reflexivity].
  - reflexivity.
Qed.

Lemma init_name_not_falsy (env : InitEnv) (data : TrainingConfig) :
  falsy (name (init env data)) = false.
Proof.
  unfold init. cbn [name].
  destruct (falsy (name data)) eqn:E; [|exact E].
  cbn [falsy]. apply append_nonempty. discriminate.
Qed.

(** X7.  Saving a constructed configuration and loading it back, when the
    validation accepts the saved fields as they are, runs the constructor a
    second time: the name, the seed, the warm-up length, the penalties and
    decays, the flip and mask settings and the tokens come back as saved,
    but [output_dir] comes back with a second suffix appended.  Other paths
    are not affected by the save. *)
Theorem reload_appends_to_output_dir
  (validate : TrainingConfig -> option TrainingConfig) (env1 env2 : InitEnv)
  (data : TrainingConfig) (fs : ConfigIO.Files) (file_path : string) :
  let c := init env1 data in
  validate c = Some c ->
  exists c',
    ConfigIO.from_json validate env2 (ConfigIO.save_as_json c file_path fs)
      file_path
    = Some c'
    /\ output_dir c' = (output_dir c ++ ConfigIO.output_dir_suffix env2 c)%string
    /\ name c' = name c
    /\ seed c' = seed c
    /\ unet_lr_warmup_steps c' = unet_lr_warmup_steps c
    /\ l1_penalty c' = l1_penalty c
    /\ lora_weight_decay c' = lora_weight_decay c
    /\ text_encoder_lora_weight_decay c' = text_encoder_lora_weight_decay c
    /\ left_right_flip_augmentation c' = left_right_flip_augmentation c
    /\ mask_target_prompts c' = mask_target_prompts c
    /\ inserting_list_tokens c' = inserting_list_tokens c
    /\ token_dict c' = token_dict c
    /\ (forall other, other <> file_path ->
          ConfigIO.from_json validate env2
            (ConfigIO.save_as_json c file_path fs) other
          = ConfigIO.from_json validate env2 fs other).
Proof.
  intros c Hv. exists (init env2 c).
  split.
  { unfold ConfigIO.from_json, ConfigIO.save_as_json. cbn [ConfigIO.read].
    rewrite String.eqb_refl, Hv. reflexivity. }
  split; [reflexivity|].
  split.
  { unfold init at 1. cbn [name]. fold c.
    unfold c at 1. rewrite init_name_not_falsy. reflexivity. }
  split; [unfold c, init; cbn [seed]; destruct (seed data); reflexivity|].
  split; [unfold c, init; cbn [unet_lr_warmup_steps max_train_steps];
          destruct (unet_lr_warmup_steps data); reflexivity|].
  split; [unfold c, init; cbn [l1_penalty use_dora];
          destruct (use_dora data); reflexivity|].
  split; [unfold c, init; cbn [lora_weight_decay use_dora];
          destruct (use_dora data); reflexivity|].
  split; [unfold c, init; cbn [text_encoder_lora_weight_decay use_dora];
          destruct (use_dora data); reflexivity|].
  split; [unfold c, init;
          cbn [left_right_flip_augmentation concept_mode];
          destruct (concept_mode data); reflexivity|].
  split; [unfold c, init; cbn [mask_target_prompts concept_mode];
          destruct (concept_mode data); reflexivity|].
  split; [reflexivity|]. split; [reflexivity|].
  intros other Hne. unfold ConfigIO.from_json, ConfigIO.save_as_json.
  cbn [ConfigIO.read].
  destruct (String.eqb file_path other) eqn:E; [|reflexivity].
  apply String.eqb_eq in E. congruence.
Qed.

Lemma reload_appends_to_output_dir_witness :
  exists c',
    ConfigIO.from_json Some Samples.demo_env
      (ConfigIO.save_as_json (init Samples.demo_env (Samples.demo_data false))
         "training_args.json" [])
      "training_args.json"
    = Some c'
    /\ output_dir c'
       = (output_dir (init Samples.demo_env (Samples.demo_data false))
          ++ ConfigIO.output_dir_suffix Samples.demo_env
               (init Samples.demo_env (Samples.demo_data false)))%string.
Proof.
  destruct (reload_appends_to_output_dir Some Samples.demo_env
              Samples.demo_env (Samples.demo_data false) [] "training_args.json"
              eq_refl)
    as (c' & E & Hout & _).
  exists c'. split; [exact E | exact Hout].
Defined.

Lemma string_length_append (a b : string) :
  String.length (a ++ b) = (String.length a + String.length b)%nat.
Proof.
  induction a as [|c a IH]; simpl; [reflexivity | rewrite IH; reflexivity].
Qed.

Lemma append_cancel_r (a b t : string) :
  (a ++ t)%string = (b ++ t)%string -> a = b.
Proof.
  revert b. induction a as [|c a IH]; intros [|c' b] H.
  - reflexivity.
  - exfalso. apply (f_equal String.length) in H.
    simpl in H. rewrite string_length_append in H. lia.
  - exfalso. apply (f_equal String.length) in H.
    simpl in H. rewrite string_length_append in H. lia.
  - simpl in H. injection H as -> H. f_equal. apply IH. exact H.
Qed.

Lemma to_int_proper (z : Z) :
  Z.to_int z <> Decimal.Pos Decimal.Nil /\ Z.to_int z <> Decimal.Neg Decimal.Nil.
Proof.
  destruct z as [|p|p]; simpl; split; try discriminate;
    intros H; injection H as H;
    exact (DecimalPos.Unsigned.to_uint_nonnil p H).
Qed.

Lemma str_int_inj (a b : Z) : str_int a = str_int b -> a = b.
Proof.
  unfold str_int. intros H.
  apply (f_equal NilZero.int_of_string) in H.
  destruct (to_int_proper a) as [Ha1 Ha2].
  destruct (to_int_proper b) as [Hb1 Hb2].
  rewrite !NilZero.isi in H by assumption.
  injection H as H. apply DecimalZ.to_int_inj. exact H.
Qed.

Lemma NoDup_map_inj {A B : Type} (f : A -> B) (l : list A) :
  (forall x y, f x = f y -> x = y) -> NoDup l -> NoDup (map f l).
Proof.
  intros Hinj. induction 1 as [|x l Hx Hnd IH]; simpl; constructor.
  - intros Hin. apply in_map_iff in Hin as [y [E Hy]].
    apply Hinj in E. subst y. contradiction.
  - exact IH.
Qed.

(** X8.  Whatever token list the caller passes, the constructor replaces it
    by [n_tokens] pairwise distinct tokens (none when [n_tokens <= 0]) and
    maps "TOK" to their concatenation. *)
Theorem tokens_are_rebuilt (env : InitEnv) (data : TrainingConfig) :
  let c := init env data in
  List.length (inserting_list_tokens c) = Z.to_nat (n_tokens data)
  /\ NoDup (inserting_list_tokens c)
  /\ token_dict c
     = [("TOK"%string, String.concat EmptyString (inserting_list_tokens c))]
  /\ (forall i, (i < Z.to_nat (n_tokens data))%nat ->
        nth i (inserting_list_tokens c) EmptyString
        = ("<s" ++ str_int (Z.of_nat i) ++ ">")%string).
Proof.
  intros c. unfold c, init. cbn [inserting_list_tokens token_dict].
  unfold make_tokens. repeat split.
  - rewrite length_map, length_seq. reflexivity.
  - apply NoDup_map_inj; [|apply seq_NoDup].
    intros x y H. simpl in H. injection H as H.
    apply append_cancel_r in H. apply str_int_inj in H. lia.
  - intros i Hi.
    rewrite (nth_indep _ EmptyString
               ("<s" ++ str_int (Z.of_nat O) ++ ">")%string)
      by (rewrite length_map, length_seq; exact Hi).
    rewrite (map_nth (fun i => ("<s" ++ str_int (Z.of_nat i) ++ ">")%string)).
    rewrite seq_nth by exact Hi. reflexivity.
Qed.

End ConfigFacts.

(** ** The optimizer constructors *)

Section OptimFacts.

Import Optim.

(** X9.  The text-encoder LoRA constructor knows one name only: it
    returns an optimizer for no name other than "adamw", and it refuses
    "prodigy" with [NotImplementedError], a name for which the unet and the
    textual-inversion constructors both return a Prodigy optimizer. *)
Theorem text_encoder_lora_accepts_only_adamw :
  (forall peft text_encoders rank alpha dora optimizer_name lora_lr wd,
      is_ok (get_optimizer_and_peft_models_text_encoder_lora peft
               text_encoders rank alpha dora optimizer_name lora_lr wd)
      = true ->
      optimizer_name = "adamw"%string)
  /\ (forall peft text_encoders rank alpha dora lora_lr wd,
         get_optimizer_and_peft_models_text_encoder_lora peft text_encoders
           rank alpha dora "prodigy" lora_lr wd
         = Raise (NotImplementedError
                    "Text encoder LoRA finetuning is not yet implemented for optimizer: prodigy"))
  /\ (forall d_coef_ wd dora g gs,
         exists o,
           get_unet_optimizer d_coef_ wd dora (g :: gs) "prodigy" = Ok o
           /\ algo o = Prodigy)
  /\ (forall text_encoders ti_lr ti_wd,
         exists o ps,
           get_textual_inversion_optimizer text_encoders ti_lr ti_wd "prodigy"
           = Ok (o, ps)
           /\ algo o = Prodigy).
Proof.
  split; [|split; [|split]].
  - intros peft text_encoders rank alpha dora optimizer_name lora_lr wd H.
    unfold get_optimizer_and_peft_models_text_encoder_lora in H.
    destruct (String.eqb optimizer_name "adamw") eqn:E;
      [apply String.eqb_eq; exact E | discriminate H].
  - intros. reflexivity.
  - intros. eexists. split; reflexivity.
  - intros. eexists. eexists. split; reflexivity.
Qed.

Lemma token_embedding_params_In (text_encoders : list (option TextEncoder))
  (p : Param) :
  In p (token_embedding_params text_encoders)
  <-> exists enc nm q,
        In (Some enc) text_encoders /\ In (nm, q) enc
        /\ contains "token_embedding" nm = true
        /\ p = mkParam (numel q) true.
Proof.
  unfold token_embedding_params. rewrite in_flat_map. split.
  - intros [[enc|] [Hte Hin]]; [|contradiction].
    apply in_flat_map in Hin as [[nm q] [Hnq Hp]]. simpl in Hp.
    destruct (contains "token_embedding" nm) eqn:E; [|contradiction].
    destruct Hp as [<- | []].
    exists enc, nm, q. auto.
  - intros (enc & nm & q & Hte & Hnq & Hc & ->).
    exists (Some enc). split; [exact Hte|].
    apply in_flat_map. exists (nm, q). split; [exact Hnq|].
    simpl. rewrite Hc. left. reflexivity.
Qed.

(** X10.  For an accepted name the textual-inversion constructor returns
    one group that holds exactly the parameters whose name contains
    "token_embedding" in the encoders that are present (absent encoders are
    skipped), all switched to trainable; the group's rate is
    [textual_inversion_lr] under "adamw" and 1 under "prodigy", and for
    "adamw" the effective-rate query on the result answers
    [textual_inversion_lr]. *)
Theorem textual_inversion_optimizer_contents
  (text_encoders : list (option TextEncoder)) (ti_lr ti_wd : Q)
  (optimizer_name : string) :
  optimizer_name = "adamw"%string \/ optimizer_name = "prodigy"%string ->
  exists o g,
    get_textual_inversion_optimizer text_encoders ti_lr ti_wd optimizer_name
    = Ok (o, token_embedding_params text_encoders)
    /\ param_groups o = Some [g]
    /\ params g = token_embedding_params text_encoders
    /\ Forall (fun p => requires_grad p = true) (params g)
    /\ (forall p, In p (params g)
                  <-> exists enc nm q,
                        In (Some enc) text_encoders /\ In (nm, q) enc
                        /\ contains "token_embedding" nm = true
                        /\ p = mkParam (numel q) true)
    /\ weight_decay g = ti_wd
    /\ lr g = (if String.eqb optimizer_name "prodigy" then 1%Q else ti_lr)
    /\ algo o = (if String.eqb optimizer_name "prodigy" then Prodigy
                 else AdamW)
    /\ (forall fsqrt, optimizer_name = "adamw"%string ->
                      Utils.get_avg_lr fsqrt (Some o) = Ok ti_lr).
Proof.
  intros Hname.
  assert (Hfa : Forall (fun p => requires_grad p = true)
                  (token_embedding_params text_encoders)).
  { apply Forall_forall. intros p Hp.
    apply token_embedding_params_In in Hp
      as (enc & nm & q & _ & _ & _ & ->).
    reflexivity. }
  destruct Hname as [-> | ->]; unfold get_textual_inversion_optimizer;
    simpl; eexists; eexists;
    (split; [reflexivity|]); simpl;
    (split; [reflexivity|]); (split; [reflexivity|]);
    (split; [exact Hfa|]);
    (split; [intros p; apply token_embedding_params_In|]);
    repeat split; try reflexivity.
  intros fsqrt H. discriminate H.
Qed.

Lemma textual_inversion_optimizer_contents_witness :
  exists o,
    get_textual_inversion_optimizer MoreSamples.two_encoders (1 # 1000) 0
      "adamw"
    = Ok (o, [mkParam 37945344 true])
    /\ Utils.get_avg_lr (fun q => q) (Some o) = Ok (1 # 1000)%Q.
Proof.
  destruct (textual_inversion_optimizer_contents MoreSamples.two_encoders
              (1 # 1000) 0 "adamw" (or_introl eq_refl))
    as (o & g & E & _ & _ & _ & _ & _ & _ & _ & Hq).
  exists o. split; [exact E | apply Hq; reflexivity].
Defined.

(** X11.  The unet optimizer built over what [get_unet_lora_parameters]
    returns has one group: it holds exactly the trainable parameters of the
    wrapped model, its weight decay is [lora_weight_decay], or 0 under DoRA,
    for both algorithms (AdamW's own default decay is not used), and its
    rate is 1e-4 under "adamw" and 1 under "prodigy". *)
Theorem unet_optimizer_over_lora_parameters
  (peft : list Param -> Z -> Q -> bool -> list Param) (lora_rank : Z)
  (multiplier lora_weight_decay d_coef_ : Q) (use_dora : bool)
  (unet : list Param) (optimizer_name : string) :
  optimizer_name = "adamw"%string \/ optimizer_name = "prodigy"%string ->
  let r := Lora.get_unet_lora_parameters peft lora_rank multiplier
             lora_weight_decay use_dora unet in
  exists o g,
    get_unet_optimizer d_coef_ lora_weight_decay use_dora (snd (fst r))
      optimizer_name = Ok o
    /\ param_groups o = Some [g]
    /\ params g = snd r
    /\ (forall p, In p (params g)
                  <-> In p (fst (fst r)) /\ requires_grad p = true)
    /\ weight_decay g = (if use_dora then 0%Q else lora_weight_decay)
    /\ lr g = (if String.eqb optimizer_name "prodigy" then 1%Q
               else (1 # 10000)%Q).
Proof.
  intros Hname r.
  destruct Hname as [-> | ->]; unfold get_unet_optimizer; simpl;
    eexists; eexists; (split; [reflexivity|]); simpl;
    (split; [reflexivity|]); (split; [reflexivity|]);
    (split; [intros p; apply filter_In|]);
    split; try reflexivity; destruct use_dora; reflexivity.
Qed.

Lemma unet_optimizer_over_lora_parameters_witness :
  exists o g,
    get_unet_optimizer 1 (2 # 1000) true
      (snd (fst (Lora.get_unet_lora_parameters MoreSamples.add_adapters 12 1
                   (2 # 1000) true [mkParam 640 true; mkParam 320 true])))
      "adamw" = Ok o
    /\ param_groups o = Some [g]
    /\ params g = [mkParam 24 true; mkParam 24 true]
    /\ weight_decay g = 0%Q.
Proof.
  destruct (unet_optimizer_over_lora_parameters MoreSamples.add_adapters 12 1
              (2 # 1000) 1 true [mkParam 640 true; mkParam 320 true] "adamw"
              (or_introl eq_refl))
    as (o & g & E & Hg & Hp & _ & Hw & _).
  exists o, g. split; [exact E|]. split; [exact Hg|].
  split; [exact Hp | exact Hw].
Defined.

End OptimFacts.

(** ** More on the training loop *)

Section RunFacts.

Import Trainer.

(** What a completed iteration tells about its inputs, and the state it
    leaves. *)
Lemma train_step_inv cfg w E epoch step st st' :
  train_step cfg w E epoch step st = Ok st' ->
  exists st1 p v,
    pivot_or_decay cfg w E epoch step st = Ok st1
    /\ String.eqb (prediction_type w) "epsilon" = true
    /\ check_loss cfg w = Ok tt
    /\ gradient_accumulation_steps cfg <> 0
    /\ checkpointing_steps cfg <> 0
    /\ optimizer_prod st = Some p
    /\ Utils.get_avg_lr (fsqrt w)
         (Some (if boundary cfg w step then prodigy_step w p else p)) = Ok v
    /\ st' = mkState (global_step st + 1)
                     (if global_step st mod checkpointing_steps cfg =? 0
                      then global_step st else last_save_step st)
                     (optimizer st1)
                     (Some (if boundary cfg w step then prodigy_step w p
                            else p))
                     (ti_lrs st ++ [recorded_ti (optimizer st1)])
                     (lora_lrs st ++ [v])
                     (checkpoints st
                      ++ (if global_step st mod checkpointing_steps cfg =? 0
                          then [global_step st] else []))
                     (pivots st1) true.
Proof.
  unfold train_step. intros H.
  apply bind_ok in H as [st1 [Hpd H]].
  apply bind_ok in H as [u [Hpt H]].
  apply bind_ok in H as [u' [Hloss H]].
  apply bind_ok in H as [st2 [H2 H]].
  apply bind_ok in H as [st3 [H3 H]].
  apply bind_ok in H as [st4 [H4 H]].
  injection H as <-.
  destruct (pivot_or_decay_frame _ _ _ _ _ _ _ Hpd)
    as (Fg & Fl & Fp & Ft & Flo & Fc).
  unfold check_prediction_type in Hpt.
  destruct (String.eqb (prediction_type w) "epsilon") eqn:Ept;
    [|discriminate Hpt].
  destruct u'.
  unfold optimizer_steps in H2.
  destruct (gradient_accumulation_steps cfg =? 0) eqn:Eg;
    [discriminate H2|]. apply Z.eqb_neq in Eg.
  unfold periodic_checkpoint in H4.
  destruct (checkpointing_steps cfg =? 0) eqn:Ecs;
    [discriminate H4|]. apply Z.eqb_neq in Ecs.
  unfold track_lrs in H3. apply bind_ok in H3 as [v [Hv H3]].
  injection H3 as <-.
  destruct st1 as [gs1 ls1 o1 p1 t1 l1 c1 pv1 tb1].
  simpl in Fg, Fl, Fp, Ft, Flo, Fc. subst gs1 ls1 p1 t1 l1 c1.
  unfold bind_target_size in H2.
  cbn [optimizer_prod optimizer global_step last_save_step ti_lrs lora_lrs
         checkpoints pivots target_size_bound] in H2.
  destruct (optimizer_prod st) as [p|] eqn:Ep.
  2:{ exfalso.
      destruct (boundary cfg w step); injection H2 as <-;
        simpl in Hv; discriminate Hv. }
  exists (mkState (global_step st) (last_save_step st) o1 (Some p)
                  (ti_lrs st) (lora_lrs st) (checkpoints st) pv1 tb1), p, v.
  split; [exact Hpd|]. split; [reflexivity|]. split; [exact Hloss|].
  split; [exact Eg|]. split; [exact Ecs|]. split; [reflexivity|].
  destruct (boundary cfg w step); injection H2 as <-;
    unfold with_optimizer_prod, record_lrs in *;
    cbn [optimizer_prod optimizer global_step last_save_step ti_lrs lora_lrs
           checkpoints pivots option_map target_size_bound] in *;
    (split; [exact Hv|]);
    destruct (global_step st mod checkpointing_steps cfg =? 0);
    injection H4 as <-; unfold save_checkpoint, advance;
    cbn [optimizer_prod optimizer global_step last_save_step ti_lrs lora_lrs
           checkpoints pivots target_size_bound];
    rewrite ?app_nil_r; reflexivity.
Qed.

(** A loop that changes a measure of the state completed an iteration that
    changed it. *)
Lemma for_range_progress (f : State -> Z) (body : Z -> State -> result State) :
  forall count lo st st',
    for_range count lo body st = Ok st' ->
    f st' <> f st ->
    exists i s1 s2, body i s1 = Ok s2 /\ f s2 <> f s1.
Proof.
  induction count as [|count IH]; intros lo st st' H Hne.
  - simpl in H. injection H as <-. contradiction.
  - simpl in H. apply bind_ok in H as [s1 [H1 H]].
    destruct (Z.eq_dec (f s1) (f st)) as [E|E].
    + apply (IH (lo + 1) s1 st' H). rewrite E. exact Hne.
    + exists lo, st, s1. split; assumption.
Qed.

Lemma setup_inv cfg w o p E :
  setup cfg w = Ok (o, p, E) ->
  scale_lr_based_on_grad_acc cfg = false
  /\ is_lora cfg = true
  /\ (optimizer_name cfg = "adamw"%string /\ p = None
      \/ optimizer_name cfg = "prodigy"%string /\ p = Some (prodigy0 cfg w))
  /\ gradient_accumulation_steps cfg <> 0
  /\ update_steps_per_epoch cfg w <> 0
  /\ exists m, max_train_steps cfg = Some m /\ E = epochs cfg w m.
Proof.
  unfold setup. intros H.
  destruct (scale_lr_based_on_grad_acc cfg); [discriminate H|].
  destruct (is_lora cfg); [|discriminate H]. cbn [negb] in H.
  apply bind_ok in H as [u [Hu H]].
  apply bind_ok in H as [m [Hm H]].
  apply bind_ok in H as [[o' p'] [Hh H]].
  apply bind_ok in H as [E' [HE H]].
  injection H as <- <- <-.
  unfold ceil_div in Hu, HE.
  destruct (gradient_accumulation_steps cfg =? 0) eqn:Eg;
    [discriminate Hu|]. apply Z.eqb_neq in Eg. injection Hu as <-.
  fold (update_steps_per_epoch cfg w) in HE.
  destruct (update_steps_per_epoch cfg w =? 0) eqn:Eu;
    [discriminate HE|]. apply Z.eqb_neq in Eu. injection HE as <-.
  destruct (max_train_steps cfg) as [m'|]; [|discriminate Hm].
  injection Hm as <-.
  repeat split; try assumption.
  - unfold build_optimizers in Hh.
    destruct (String.eqb_spec (optimizer_name cfg) "adamw") as [Ea|Ea].
    + left. injection Hh as <- <-. split; [exact Ea | reflexivity].
    + destruct (String.eqb_spec (optimizer_name cfg) "prodigy") as [Ep|Ep];
        [|discriminate Hh].
      right. injection Hh as <- <-. split; [exact Ep | reflexivity].
  - exists m'. split; reflexivity.
Qed.

(** X12.  A run that returns went through a set-up that needs:
    [scale_lr_based_on_grad_acc] off, [is_lora] on, an optimizer name among
    "adamw" and "prodigy", a [max_train_steps] that is not [None], a
    non-zero [gradient_accumulation_steps] and a non-empty data loader.  Any
    other configuration raises before the first iteration. *)
Theorem completed_run_requires cfg w st out :
  train cfg w = Ok (st, out) ->
  scale_lr_based_on_grad_acc cfg = false
  /\ is_lora cfg = true
  /\ (optimizer_name cfg = "adamw"%string
      \/ optimizer_name cfg = "prodigy"%string)
  /\ max_train_steps cfg <> None
  /\ gradient_accumulation_steps cfg <> 0
  /\ n_batches w <> O.
Proof.
  unfold train. intros H.
  apply bind_ok in H as [[[o p] E] [Hs _]].
  destruct (setup_inv cfg w o p E Hs)
    as (Hsc & Hl & Hname & Hg & Hu & m & Hm & _).
  repeat split; try assumption.
  - destruct Hname as [[Ha _] | [Hp _]]; [left | right]; assumption.
  - rewrite Hm. discriminate.
  - intros Hn. apply Hu. unfold update_steps_per_epoch. rewrite Hn.
    reflexivity.
Qed.

Lemma completed_run_requires_witness :
  Trainer.optimizer_name (Samples.trainer_config "prodigy" false 10 1 500)
  = "prodigy"%string
  /\ Trainer.n_batches (Samples.world 3) <> O.
Proof.
  destruct (train (Samples.trainer_config "prodigy" false 10 1 500)
              (Samples.world 3)) as [[st out]|e] eqn:E.
  - destruct (completed_run_requires _ _ st out E)
      as (_ & _ & _ & _ & _ & Hn).
    split; [reflexivity | exact Hn].
  - vm_compute in E. discriminate E.
Defined.

(** Without a Prodigy handle no loop iteration completes, so a loop that
    returns has not moved. *)
Lemma loop_without_prodigy cfg w E st st' :
  optimizer_prod st = None ->
  train_loop cfg w E st = Ok st' ->
  global_step st' = global_step st.
Proof.
  intros Hnone H.
  destruct (Z.eq_dec (global_step st') (global_step st)) as [Eq|Hne];
    [exact Eq | exfalso].
  (* some epoch moved the counter, hence some iteration did *)
  assert (Hinner : forall count lo epoch s s',
             optimizer_prod s = None ->
             for_range count lo (train_step cfg w E epoch) s = Ok s' ->
             s' = s).
  { induction count as [|count IH]; intros lo epoch s s' Hs Hr.
    - simpl in Hr. injection Hr as <-. reflexivity.
    - simpl in Hr. apply bind_ok in Hr as [s1 [H1 _]].
      exfalso. exact (step_needs_prodigy_handle _ _ _ _ _ _ _ H1 Hs). }
  assert (Houter : forall count lo s s',
             optimizer_prod s = None ->
             for_range count lo (train_epoch cfg w E) s = Ok s' ->
             s' = s).
  { induction count as [|count IH]; intros lo s s' Hs Hr.
    - simpl in Hr. injection Hr as <-. reflexivity.
    - simpl in Hr. apply bind_ok in Hr as [s1 [H1 Hr]].
      unfold train_epoch in H1. apply Hinner in H1; [|exact Hs]. subst s1.
      apply (IH (lo + 1) s s' Hs Hr). }
  apply Hne. unfold train_loop in H. apply Houter in H; [|exact Hnone].
  subst st'. reflexivity.
Qed.

(** X13.  A run that completes at least one iteration was configured with
    "prodigy", an "epsilon" noise scheduler and a non-zero
    [checkpointing_steps], and could compute its L1 term.  In particular a
    run with [optimizer_name = "adamw"] never completes an iteration: the
    query of the Prodigy rate raises on the missing handle. *)
Theorem completed_iteration_requires cfg w st out :
  train cfg w = Ok (st, out) ->
  0 < global_step st ->
  optimizer_name cfg = "prodigy"%string
  /\ prediction_type w = "epsilon"%string
  /\ checkpointing_steps cfg <> 0
  /\ check_loss cfg w = Ok tt.
Proof.
  unfold train. intros H Hpos.
  apply bind_ok in H as [[[o p] E] [Hs H]].
  apply bind_ok in H as [st0 [Hl H]].
  assert (Hgs : global_step st0 = global_step st).
  { unfold final_save in H. cbv zeta in H.
    destruct (negb (dir_exists st0 _));
      [destruct (target_size_bound (save_final st0)); [|discriminate H]|];
      injection H as <- _; reflexivity. }
  destruct (setup_inv cfg w o p E Hs) as (_ & _ & Hname & _).
  assert (Hmoved : global_step st0 <> global_step (initial_state o p))
    by (simpl; lia).
  split.
  - destruct Hname as [[_ Hp] | [Hp _]]; [exfalso | exact Hp].
    subst p. apply Hmoved.
    apply (loop_without_prodigy cfg w E (initial_state o None) st0 eq_refl Hl).
  - unfold train_loop in Hl.
    destruct (for_range_progress global_step _ _ _ _ _ Hl Hmoved)
      as (epoch & s1 & s2 & He & Hne).
    unfold train_epoch in He.
    destruct (for_range_progress global_step _ _ _ _ _ He Hne)
      as (step & s3 & s4 & Hstep & _).
    destruct (train_step_inv _ _ _ _ _ _ _ Hstep)
      as (st1 & p' & v & _ & Hpt & Hloss & _ & Hcs & _).
    split; [apply String.eqb_eq; exact Hpt|].
    split; assumption.
Qed.

Lemma completed_iteration_requires_witness :
  Trainer.prediction_type (Samples.world 3) = "epsilon"%string
  /\ Trainer.checkpointing_steps
       (Samples.trainer_config "prodigy" false 10 1 500) <> 0.
Proof.
  destruct (train (Samples.trainer_config "prodigy" false 10 1 500)
              (Samples.world 3)) as [[st out]|e] eqn:E.
  - destruct (completed_iteration_requires _ _ st out E)
      as (_ & Hp & Hc & _).
    + vm_compute in E. injection E as <- _. reflexivity.
    + split; [exact Hp | exact Hc].
  - vm_compute in E. discriminate E.
Defined.










(** *** The records of a whole run *)










(** *** Counting the optimizer steps *)

















(** *** The decayed rate as a function of the global iteration *)





End RunFacts.
(** ** More on the loss of one batch *)

Section MoreLossFacts.

Import Loss.
Local Open Scope Q_scope.

(** X19.  Computing the loss raises in exactly one case, a positive
    [l1_penalty] with no adapter parameter at all (the two [sum]s are then
    the integers 0 and 0); with a penalty that is not positive the
    parameters are not looked at. *)
Theorem compute_loss_raises_iff (snr_gamma : option Gamma) (l1_penalty : Q)
  (prediction_type : string) (snr : list Q) (pred target mask : Tensor)
  (unet_lora_parameters : list (list Q)) :
  (is_ok (compute_loss snr_gamma l1_penalty prediction_type snr pred target
            mask unet_lora_parameters) = false
   <-> positive l1_penalty = true /\ unet_lora_parameters = [])
  /\ (positive l1_penalty = true ->
      compute_loss snr_gamma l1_penalty prediction_type snr pred target mask
        [] = Raise ZeroDivisionError)
  /\ (positive l1_penalty = false ->
      forall other : list (list Q),
        compute_loss snr_gamma l1_penalty prediction_type snr pred target
          mask other
        = compute_loss snr_gamma l1_penalty prediction_type snr pred target
            mask unet_lora_parameters).
Proof.
  unfold compute_loss.
  destruct (positive l1_penalty) eqn:Ep.
  - split; [|split].
    + destruct unet_lora_parameters as [|p ps]; simpl.
      * split; [intros _; split; reflexivity | reflexivity].
      * split; [intros H; discriminate H | intros [_ H]; discriminate H].
    + intros _. reflexivity.
    + intros H. discriminate H.
  - split; [|split].
    + simpl. split; [intros H; discriminate H | intros [H _]; discriminate H].
    + intros H. discriminate H.
    + intros _ other. reflexivity.
Qed.

Lemma qsum_nonneg (l : list Q) : Forall (fun x => 0 <= x) l -> 0 <= qsum l.
Proof.
  induction 1 as [|x l Hx _ IH]; simpl; [apply Qle_refl|].
  replace 0 with (0 + 0) by reflexivity. apply Qplus_le_compat; assumption.
Qed.

Lemma div_nonneg (a b : Q) : 0 <= a -> 0 <= b -> 0 <= a / b.
Proof.
  intros Ha Hb. unfold Qdiv. apply Qmult_le_0_compat; [exact Ha|].
  apply Qinv_le_0_compat. exact Hb.
Qed.

Lemma count_nonneg (n : nat) : 0 <= inject_Z (Z.of_nat n).
Proof. unfold Qle. simpl. lia. Qed.

Lemma qmean_nonneg (l : list Q) : Forall (fun x => 0 <= x) l -> 0 <= qmean l.
Proof.
  intros H. unfold qmean.
  apply div_nonneg; [apply qsum_nonneg; exact H | apply count_nonneg].
Qed.

Lemma positive_spec (x : Q) : positive x = true -> 0 < x.
Proof.
  unfold positive. intros H. apply negb_true_iff in H.
  apply Qnot_le_lt. intros Hle. apply Qle_bool_iff in Hle.
  rewrite Hle in H. discriminate H.
Qed.

Lemma abs_sums_nonneg (ps : list (list Q)) :
  0 <= qsum (map (fun p => qsum (map Qabs p)) ps).
Proof.
  apply qsum_nonneg. apply Forall_forall. intros x Hx.
  apply in_map_iff in Hx as [r [<- _]].
  apply qsum_nonneg. apply Forall_forall. intros y Hy.
  apply in_map_iff in Hy as [z [<- _]]. apply Qabs_nonneg.
Qed.

Lemma l1_norm_nonneg (ps : list (list Q)) (n : Q) :
  l1_norm ps = Ok n -> 0 <= n.
Proof.
  unfold l1_norm. destruct ps as [|p ps]; intros H; [discriminate H|].
  injection H as <-.
  apply (div_nonneg _ _ (abs_sums_nonneg (p :: ps)) (count_nonneg _)).
Qed.

Lemma l1_norm_defined (ps : list (list Q)) :
  ps <> [] ->
  l1_norm ps
  = Ok (qsum (map (fun p => qsum (map Qabs p)) ps)
        / inject_Z (Z.of_nat (List.length (List.concat ps)))).
Proof.
  destruct ps as [|p ps]; [intros H; contradiction | reflexivity].
Qed.

Lemma abs_sums_concat (ps : list (list Q)) :
  qsum (map (fun r => qsum (map Qabs r)) ps)
  == qsum (map Qabs (List.concat ps)).
Proof.
  induction ps as [|r t IH]; simpl; [reflexivity|].
  rewrite map_app, qsum_app, IH. reflexivity.
Qed.

(** X20.  A positive [l1_penalty] over parameters with at least one entry
    adds [l1_penalty] times the mean absolute parameter value, a term that
    is never negative: the penalised loss is never below the loss computed
    with the penalty off. *)
Theorem l1_penalty_never_lowers_loss (snr_gamma : option Gamma)
  (l1_penalty : Q) (prediction_type : string) (snr : list Q)
  (pred target mask : Tensor) (unet_lora_parameters : list (list Q)) :
  positive l1_penalty = true ->
  List.concat unet_lora_parameters <> [] ->
  exists base n v,
    compute_loss snr_gamma 0 prediction_type snr pred target mask
      unet_lora_parameters = Ok base
    /\ l1_norm unet_lora_parameters = Ok n
    /\ compute_loss snr_gamma l1_penalty prediction_type snr pred target mask
         unet_lora_parameters = Ok v
    /\ n == qsum (map Qabs (List.concat unet_lora_parameters))
            / inject_Z (Z.of_nat
                          (List.length (List.concat unet_lora_parameters)))
    /\ 0 <= n
    /\ v == base + l1_penalty * n
    /\ base <= v.
Proof.
  intros Hp Hne.
  assert (Hps : unet_lora_parameters <> [])
    by (intros E; apply Hne; rewrite E; reflexivity).
  pose proof (l1_norm_defined _ Hps) as Hn.
  pose proof (l1_norm_nonneg _ _ Hn) as Hn0.
  pose proof (positive_spec _ Hp) as Hl.
  unfold compute_loss. rewrite Hp, Hn. simpl.
  eexists. eexists. eexists.
  split; [reflexivity|]. split; [reflexivity|]. split; [reflexivity|].
  split; [rewrite abs_sums_concat; reflexivity|].
  split; [exact Hn0|]. split; [reflexivity|].
  pose proof (Qmult_le_0_compat _ _ (Qlt_le_weak _ _ Hl) Hn0) as H0.
  lra.
Qed.

Lemma l1_penalty_never_lowers_loss_witness :
  exists v,
    compute_loss None (1 # 100) "epsilon" [] Samples.pred2 Samples.target2
      Samples.mask2 [[1; -1]] = Ok v
    /\ v == (1 # 4) + (1 # 100).
Proof.
  destruct (l1_penalty_never_lowers_loss None (1 # 100) "epsilon" []
              Samples.pred2 Samples.target2 Samples.mask2 [[1; -1]]
              eq_refl ltac:(discriminate))
    as (base & n & v & Hb & Hn & Hv & _).
  exists v. split; [exact Hv|].
  vm_compute in Hv. injection Hv as <-. reflexivity.
Defined.

(** *** The plain branch *)

Lemma sq_nonneg_rows (pred target : Tensor) :
  Forall (Forall (fun x => 0 <= x)) (sq_err pred target).
Proof.
  unfold sq_err. revert target.
  induction pred as [|p pred IH]; intros [|t target]; simpl; constructor.
  - clear. revert t. induction p as [|a p IH]; intros [|b t]; simpl;
      constructor; [apply Qsqr_nonneg | apply IH].
  - apply IH.
Qed.

Lemma mult_nonneg_row (e r : list Q) :
  Forall (fun x => 0 <= x) e -> Forall (fun x => 0 <= x) r ->
  Forall (fun x => 0 <= x) (map2 Qmult e r).
Proof.
  intros He. revert r. induction He as [|a e Ha _ IH]; intros r Hr; simpl;
    [constructor|].
  destruct r as [|b r]; [constructor|].
  inversion Hr; subst.
  constructor; [apply Qmult_le_0_compat; assumption | apply IH; assumption].
Qed.

Lemma row_means_nonneg (errs mask : Tensor) :
  Forall (Forall (fun x => 0 <= x)) errs ->
  Forall (Forall (fun x => 0 <= x)) mask ->
  Forall (fun x => 0 <= x) (map qmean (map2 (map2 Qmult) errs mask)).
Proof.
  intros He. revert mask. induction He as [|e errs He _ IH]; intros mask Hm;
    simpl; [constructor|].
  destruct mask as [|r mask]; [constructor|].
  inversion Hm; subst. simpl.
  constructor; [apply qmean_nonneg, mult_nonneg_row; assumption
               | apply IH; assumption].
Qed.

Lemma div_nonneg_rows (a b : list Q) :
  Forall (fun x => 0 <= x) a -> Forall (fun x => 0 <= x) b ->
  Forall (fun x => 0 <= x) (map2 Qdiv a b).
Proof.
  intros Ha. revert b. induction Ha as [|x a Hx _ IH]; intros b Hb; simpl;
    [constructor|].
  destruct b as [|y b]; [constructor|].
  inversion Hb; subst.
  constructor; [apply div_nonneg; assumption | apply IH; assumption].
Qed.

Lemma loss_plain_nonneg_aux (pred target mask : Tensor) :
  LossMore.nonneg mask -> 0 <= loss_plain pred target mask.
Proof.
  intros Hm. unfold loss_plain, masked_sq_err. cbv zeta.
  assert (Hmm : Forall (fun x => 0 <= x) (map qmean mask)).
  { apply Forall_forall. intros x Hx. apply in_map_iff in Hx as [r [<- Hr]].
    apply qmean_nonneg. unfold LossMore.nonneg in Hm.
    rewrite Forall_forall in Hm. apply Hm. exact Hr. }
  apply qmean_nonneg. apply div_nonneg_rows.
  - apply row_means_nonneg; [apply sq_nonneg_rows | exact Hm].
  - apply Forall_forall. intros x Hx. apply in_map_iff in Hx as [v [<- Hv]].
    rewrite Forall_forall in Hmm.
    apply div_nonneg; [apply Hmm; exact Hv | apply qmean_nonneg].
    apply Forall_forall. exact Hmm.
Qed.

(** X21.  On tensors of one shape, with a mask that has no negative entry
    and no example whose mask mean is 0, the loss of the branch without SNR
    weights is never negative, whatever the prediction and the target
    are. *)
Theorem loss_plain_nonneg (B n : nat) (pred target mask : Tensor)
  (prediction_type : string) (snr : list Q) (ps : list (list Q)) :
  has_shape B n pred -> has_shape B n target -> has_shape B n mask ->
  LossMore.nonneg mask ->
  LossMore.divisors_nonzero mask ->
  exists loss,
    compute_loss None 0 prediction_type snr pred target mask ps = Ok loss
    /\ loss == loss_plain pred target mask
    /\ 0 <= loss.
Proof.
  intros _ _ _ Hm _. exists (loss_plain pred target mask).
  split; [reflexivity|]. split; [reflexivity|].
  apply loss_plain_nonneg_aux. exact Hm.
Qed.

Lemma mask2_divisors_nonzero : LossMore.divisors_nonzero Samples.mask2.
Proof.
  unfold LossMore.divisors_nonzero, Samples.mask2. split.
  - repeat constructor; intros H; vm_compute in H; discriminate H.
  - intros H. vm_compute in H. discriminate H.
Qed.

Lemma loss_plain_nonneg_witness :
  exists loss,
    compute_loss None 0 "epsilon" [] Samples.pred2 Samples.target2
      Samples.mask2 [] = Ok loss
    /\ 0 <= loss.
Proof.
  destruct (loss_plain_nonneg 2 1 Samples.pred2 Samples.target2
              Samples.mask2 "epsilon" [] [])
    as (loss & H & _ & H0).
  - split; [reflexivity | repeat constructor].
  - split; [reflexivity | repeat constructor].
  - split; [reflexivity | repeat constructor].
  - unfold LossMore.nonneg, Samples.mask2.
    repeat constructor; unfold Qle; simpl; lia.
  - exact mask2_divisors_nonzero.
  - exists loss. split; [exact H | exact H0].
Defined.

(** *** Scaling the mask *)

Lemma qsum_map_scale (c : Q) (l : list Q) :
  qsum (map (Qmult c) l) == c * qsum l.
Proof. induction l as [|a l IH]; simpl; [ring | rewrite IH; ring]. Qed.

Lemma scaled_row_sum (c : Q) (e r : list Q) :
  qsum (map2 Qmult e (map (Qmult c) r)) == c * qsum (map2 Qmult e r).
Proof.
  revert r. induction e as [|a e IH]; intros [|b r]; simpl; try ring.
  rewrite IH. ring.
Qed.

Lemma scaled_row_length {A B C} (f : A -> B -> C) (h : B -> B) e r :
  List.length (map2 f e (map h r)) = List.length (map2 f e r).
Proof.
  revert r. induction e as [|a e IH]; intros [|b r]; simpl; auto.
Qed.

Lemma scaled_by_qmean (c : Q) (l' l : list Q) :
  LossMore.scaled_by c l' l -> qmean l' == c * qmean l.
Proof.
  intros H. unfold qmean. rewrite (Forall2_length H).
  assert (Hs : qsum l' == c * qsum l).
  { induction H as [|x' x l' l Hx _ IH]; simpl; [ring|].
    rewrite Hx, IH. ring. }
  rewrite Hs. unfold Qdiv. ring.
Qed.

Lemma scaled_mask_means (c : Q) (mask : Tensor) :
  LossMore.scaled_by c (map qmean (LossMore.scale c mask)) (map qmean mask).
Proof.
  unfold LossMore.scaled_by, LossMore.scale.
  induction mask as [|r mask IH]; simpl; constructor; [|exact IH].
  unfold qmean. rewrite length_map, qsum_map_scale. unfold Qdiv. ring.
Qed.

Lemma scaled_row_means (c : Q) (errs mask : Tensor) :
  LossMore.scaled_by c
    (map qmean (map2 (map2 Qmult) errs (LossMore.scale c mask)))
    (map qmean (map2 (map2 Qmult) errs mask)).
Proof.
  unfold LossMore.scaled_by, LossMore.scale. revert mask.
  induction errs as [|e errs IH]; intros [|r mask]; simpl; constructor;
    [|apply IH].
  unfold qmean. rewrite scaled_row_length, scaled_row_sum.
  unfold Qdiv. ring.
Qed.

Lemma scaled_normalised (c M' M : Q) (l' l : list Q) :
  ~ c == 0 -> ~ M == 0 -> M' == c * M ->
  LossMore.scaled_by c l' l ->
  Forall2 Qeq (map (fun v => v / M') l') (map (fun v => v / M) l).
Proof.
  intros Hc HM HM' H.
  induction H as [|x' x l' l Hx _ IH]; simpl; constructor; [|exact IH].
  rewrite Hx, HM'. field. split; assumption.
Qed.

Lemma scaled_quotients (c : Q) (a' a n' n : list Q) :
  LossMore.scaled_by c a' a -> Forall2 Qeq n' n ->
  LossMore.scaled_by c (map2 Qdiv a' n') (map2 Qdiv a n).
Proof.
  intros Ha. revert n' n.
  induction Ha as [|x' x a' a Hx _ IH]; intros n' n Hn; simpl;
    [constructor|].
  destruct Hn as [|y' y n' n Hy Hn]; [constructor|].
  constructor; [|apply IH; exact Hn].
  rewrite Hx, Hy. unfold Qdiv. ring.
Qed.

Lemma loss_plain_scale (c : Q) (pred target mask : Tensor) :
  ~ c == 0 -> ~ qmean (map qmean mask) == 0 ->
  loss_plain pred target (LossMore.scale c mask)
  == c * loss_plain pred target mask.
Proof.
  intros Hc HM. unfold loss_plain, masked_sq_err. cbv zeta.
  apply scaled_by_qmean. apply scaled_quotients.
  - apply scaled_row_means.
  - apply (scaled_normalised c _ _ _ _ Hc HM).
    + apply scaled_by_qmean, scaled_mask_means.
    + apply scaled_mask_means.
Qed.

Lemma scaled_divisors_nonzero (c : Q) (mask : Tensor) :
  ~ c == 0 -> LossMore.divisors_nonzero mask ->
  LossMore.divisors_nonzero (LossMore.scale c mask).
Proof.
  intros Hc [Hrows Hmean]. split.
  - unfold LossMore.scale. apply Forall_forall. intros r Hr.
    apply in_map_iff in Hr as [r0 [<- Hr0]].
    rewrite Forall_forall in Hrows. specialize (Hrows r0 Hr0).
    assert (E : qmean (map (Qmult c) r0) == c * qmean r0).
    { unfold qmean. rewrite length_map, qsum_map_scale. unfold Qdiv. ring. }
    rewrite E. intros H. apply Qmult_integral in H. tauto.
  - rewrite (scaled_by_qmean c _ _ (scaled_mask_means c mask)).
    intros H. apply Qmult_integral in H. tauto.
Qed.

(** X22.  The normalisation by the mask means does not remove the overall
    level of the mask: on tensors of one shape and a mask with no example
    whose mask mean is 0, multiplying every mask entry by [c] multiplies the
    loss of the branch without SNR weights by [c]; the scaled mask has no
    example with mean 0 either. *)
Theorem mask_scale_scales_loss (c : Q) (B n : nat)
  (pred target mask : Tensor)
  (prediction_type : string) (snr : list Q) (ps : list (list Q)) :
  ~ c == 0 ->
  has_shape B n pred -> has_shape B n target -> has_shape B n mask ->
  LossMore.divisors_nonzero mask ->
  exists loss scaled,
    compute_loss None 0 prediction_type snr pred target mask ps = Ok loss
    /\ compute_loss None 0 prediction_type snr pred target
         (LossMore.scale c mask) ps = Ok scaled
    /\ scaled == c * loss
    /\ LossMore.divisors_nonzero (LossMore.scale c mask)
    /\ has_shape B n (LossMore.scale c mask).
Proof.
  intros Hc _ _ Hshape Hd.
  exists (loss_plain pred target mask),
         (loss_plain pred target (LossMore.scale c mask)).
  split; [reflexivity|]. split; [reflexivity|].
  split; [apply loss_plain_scale; [exact Hc | apply Hd]|].
  split; [apply scaled_divisors_nonzero; assumption|].
  destruct Hshape as [HB Hn]. unfold LossMore.scale. split.
  - rewrite length_map. exact HB.
  - apply Forall_forall. intros r Hr. apply in_map_iff in Hr as [r0 [<- Hr0]].
    rewrite length_map. rewrite Forall_forall in Hn. apply Hn. exact Hr0.
Qed.

Lemma mask_scale_scales_loss_witness :
  exists loss scaled,
    compute_loss None 0 "epsilon" [] Samples.pred2 Samples.target2
      Samples.mask2 [] = Ok loss
    /\ compute_loss None 0 "epsilon" [] Samples.pred2 Samples.target2
         (LossMore.scale 2 Samples.mask2) [] = Ok scaled
    /\ scaled == 2 * loss.
Proof.
  destruct (mask_scale_scales_loss 2 2 1 Samples.pred2 Samples.target2
              Samples.mask2 "epsilon" [] [])
    as (loss & scaled & H1 & H2 & H3 & _).
  - intros H. vm_compute in H. discriminate H.
  - split; [reflexivity | repeat constructor].
  - split; [reflexivity | repeat constructor].
  - split; [reflexivity | repeat constructor].
  - exact mask2_divisors_nonzero.
  - exists loss, scaled. split; [exact H1|]. split; [exact H2 | exact H3].
Defined.

(** *** The branch with SNR weights *)

Lemma qsum_div (M : Q) (l : list Q) :
  qsum (map (fun w => w / M) l) == qsum l / M.
Proof.
  induction l as [|a l IH]; simpl; [unfold Qdiv; ring|].
  rewrite IH. unfold Qdiv. ring.
Qed.

Lemma qsum_positive (l : list Q) :
  l <> [] -> Forall (fun x => 0 < x) l -> 0 < qsum l.
Proof.
  intros Hne H. induction H as [|x l Hx Hl IH]; [contradiction|].
  simpl. destruct l as [|y l].
  - simpl. lra.
  - assert (0 < qsum (y :: l)) by (apply IH; discriminate). lra.
Qed.

Lemma count_positive {A} (l : list A) :
  l <> [] -> 0 < inject_Z (Z.of_nat (List.length l)).
Proof.
  destruct l; [contradiction|]. intros _. unfold Qlt. simpl. lia.
Qed.

Lemma div_positive (a b : Q) : 0 < a -> 0 < b -> 0 < a / b.
Proof.
  intros Ha Hb. unfold Qdiv. apply Qmult_lt_0_compat; [exact Ha|].
  apply Qinv_lt_0_compat. exact Hb.
Qed.

Lemma qmean_positive (l : list Q) :
  l <> [] -> Forall (fun x => 0 < x) l -> 0 < qmean l.
Proof.
  intros Hne H. unfold qmean.
  apply div_positive; [apply qsum_positive | apply count_positive];
    assumption.
Qed.

Lemma normalised_mean (l : list Q) :
  l <> [] -> ~ qmean l == 0 ->
  qmean (map (fun w => w / qmean l) l) == 1.
Proof.
  intros Hne HM. unfold qmean at 1. rewrite length_map, qsum_div.
  fold (qmean l).
  assert (Hq : qsum l / qmean l / inject_Z (Z.of_nat (List.length l))
               == qmean l / qmean l).
  { unfold qmean. unfold Qdiv. ring. }
  rewrite Hq. field. exact HM.
Qed.

Lemma clip_positive (g : Gamma) (s : Q) :
  LossMore.positive_cap g -> 0 < s -> 0 < clip g s / s.
Proof.
  intros Hg Hs. apply div_positive; [|exact Hs].
  destruct g as [q|]; simpl in *; [|exact Hs].
  apply Q.min_glb_lt; [exact Hs | lra].
Qed.

Lemma raw_weights_positive (prediction_type : string) (g : Gamma)
  (snr : list Q) :
  LossMore.positive_cap g -> Forall (fun s => 0 < s) snr ->
  Forall (fun x => 0 < x)
    (if String.eqb prediction_type "v_prediction"
     then map (fun w => w + 1) (map (fun s => clip g s / s) snr)
     else map (fun s => clip g s / s) snr).
Proof.
  intros Hg Hs.
  assert (Hb : Forall (fun x => 0 < x) (map (fun s => clip g s / s) snr)).
  { apply Forall_forall. intros x Hx. apply in_map_iff in Hx as [s [<- Hin]].
    rewrite Forall_forall in Hs. apply clip_positive; [exact Hg|].
    apply Hs. exact Hin. }
  destruct (String.eqb prediction_type "v_prediction"); [|exact Hb].
  apply Forall_forall. intros x Hx. apply in_map_iff in Hx as [y [<- Hin]].
  rewrite Forall_forall in Hb. specialize (Hb y Hin). lra.
Qed.

(** X23.  For positive SNR values and a positive cap the SNR weights that
    multiply the per-example errors are positive and have mean 1, for
    either prediction type; there is one weight per example. *)
Theorem snr_weights_have_mean_one (prediction_type : string) (g : Gamma)
  (snr : list Q) :
  snr <> [] ->
  Forall (fun s => 0 < s) snr ->
  LossMore.positive_cap g ->
  qmean (LossMore.snr_weights prediction_type g snr) == 1
  /\ Forall (fun x => 0 < x) (LossMore.snr_weights prediction_type g snr)
  /\ List.length (LossMore.snr_weights prediction_type g snr)
     = List.length snr
  /\ forall pred target mask,
       loss_snr prediction_type g snr pred target mask
       = (let mean_mask_values := qmean (List.concat mask) in
          qmean (map2 Qmult (map qmean (masked_sq_err pred target mask))
                   (LossMore.snr_weights prediction_type g snr))
          / (mean_mask_values / mean_mask_values)).
Proof.
  intros Hne Hs Hg.
  pose proof (raw_weights_positive prediction_type g snr Hg Hs) as Hpos.
  unfold LossMore.snr_weights. cbv zeta.
  set (raw := if String.eqb prediction_type "v_prediction"
              then map (fun w => w + 1) (map (fun s => clip g s / s) snr)
              else map (fun s => clip g s / s) snr) in *.
  assert (Hraw : raw <> []).
  { unfold raw. destruct snr; [contradiction|].
    destruct (String.eqb prediction_type "v_prediction"); discriminate. }
  pose proof (qmean_positive raw Hraw Hpos) as HM.
  split; [apply normalised_mean; [exact Hraw | lra]|].
  split.
  - apply Forall_forall. intros x Hx. apply in_map_iff in Hx as [y [<- Hin]].
    rewrite Forall_forall in Hpos.
    apply div_positive; [apply Hpos; exact Hin | exact HM].
  - split; [|reflexivity].
    rewrite length_map. unfold raw.
    destruct (String.eqb prediction_type "v_prediction");
      rewrite ?length_map; reflexivity.
Qed.

Lemma snr_weights_have_mean_one_witness :
  qmean (LossMore.snr_weights "epsilon" (Finite 5) [1; 10]) == 1.
Proof.
  apply (snr_weights_have_mean_one "epsilon" (Finite 5) [1; 10]).
  - discriminate.
  - repeat constructor.
  - reflexivity.
Defined.



End MoreLossFacts.
